(** * auto-provision: the Context registry and resolver

    A shallow embedding of [src/context.js] (class [Context]) together with
    the parts of the host language and of the bluebird promise library that
    the class relies on, followed by the properties of the specification
    that concern it.

    Layout:
    - [JsValue]   : values, truthiness, errors, outcomes of a call;
    - [JsObject]  : a plain object used as a string-keyed table;
    - [Bluebird]  : promises and the collection combinators [map],
                    [filter], [reduce], [then];
    - [Provider]  : the production strategy attached to one key;
    - [Context]   : the static table [_repo] with [get], [delete] and the
                    constructor; [provide], [resolve], [resolveAll],
                    [using];
    - [Observe]   : what a caller sees of a call, and the notions the
                    properties are stated with;
    - [JsObjectFacts], [ResolveFacts] : lemmas;
    - [Tests]     : the repository's test suite, run on the model;
    - [ContextSpec] : the properties of the specification;
    - [TableFacts], [ContextLaws] : further properties of the code. *)

From Stdlib Require Import List String Ascii Bool Arith NArith ZArith Lia.
From Stdlib Require Import Permutation.
Import ListNotations.

Local Open Scope string_scope.
Local Set Warnings "-register-all".

(* ================================================================== *)
(** ** Values of the host language *)

Module JsValue.

(** The values a dependency can resolve to.  Numbers are integers plus
    [NaN]; every object, array or function is an opaque reference. *)
Inductive Value : Type :=
| VUndefined
| VNull
| VBool (b : bool)
| VNumber (n : Z)
| VNaN
| VString (s : string)
| VObject (ref : nat).

(** [!!value] *)
Definition truthy (v : Value) : bool :=
  match v with
  | VUndefined | VNull | VNaN => false
  | VBool b => b
  | VNumber n => negb (n =? 0)%Z
  | VString s => negb (s =? "")
  | VObject _ => true
  end.

(** What can be thrown, or be the reason of a rejected promise. *)
Inductive Error : Type :=
| DependencyError (message : string)
| UnconfiguredProvider
| RangeError
| TypeError
| Raised (reason : Value).

(** The result of a synchronous call: it returns or it throws. *)
Inductive Outcome (A : Type) : Type :=
| Returns (a : A)
| Throws (e : Error).
Arguments Returns {A} a.
Arguments Throws {A} e.

End JsValue.
Export JsValue.

(* ================================================================== *)
(** ** Plain objects used as tables *)

Module JsObject.

(** The own properties of an object, in creation order.  The tables of
    this program ([_providers], [_repo]) start as the literal [{}] and
    are only read and written through [obj[key]].  [get], [set],
    [delete] and [keys] below are the operations on the own properties;
    what a read finds beyond them, in the prototype of the literal, is
    [inherited].  A write to ['__proto__'] does not make a property: it
    replaces the prototype, and what the table then inherits depends on
    the object written.  The model keeps such a write as an entry, so
    that a read of ['__proto__'] finds what was written; statements
    about the keys of a table, about deleting and about the other names
    of a table take as a hypothesis that nothing was written under
    ['__proto__']. *)
Definition Obj (A : Type) : Type := list (string * A).

(** The names a literal [{}] inherits from [Object.prototype]. *)
Definition prototype_names : list string :=
  [ "constructor"; "hasOwnProperty"; "isPrototypeOf";
    "propertyIsEnumerable"; "toLocaleString"; "toString"; "valueOf";
    "__defineGetter__"; "__defineSetter__"; "__lookupGetter__";
    "__lookupSetter__"; "__proto__" ].

(** [obj[key]] on a name [obj] does not own finds the member of
    [Object.prototype] of that name, when there is one. *)
Definition inherited (key : string) : bool :=
  existsb (String.eqb key) prototype_names.

Definition empty {A : Type} : Obj A := [].

(** [obj[key]] among the own properties, [None] when [key] is none of
    them. *)
Fixpoint get {A : Type} (key : string) (o : Obj A) : option A :=
  match o with
  | [] => None
  | (k, a) :: o' => if k =? key then Some a else get key o'
  end.

(** [obj[key] = a]: an existing property keeps its place, a new one is
    created last. *)
Fixpoint set {A : Type} (key : string) (a : A) (o : Obj A) : Obj A :=
  match o with
  | [] => [(key, a)]
  | (k, b) :: o' =>
      if k =? key then (k, a) :: o' else (k, b) :: set key a o'
  end.

(** [delete obj[key]] *)
Fixpoint delete {A : Type} (key : string) (o : Obj A) : Obj A :=
  match o with
  | [] => []
  | (k, b) :: o' => if k =? key then o' else (k, b) :: delete key o'
  end.

Definition digit (c : ascii) : option N :=
  let n := N_of_ascii c in
  if ((48 <=? n) && (n <=? 57))%N then Some (n - 48)%N else None.

Fixpoint digits (s : string) (acc : N) : option N :=
  match s with
  | EmptyString => Some acc
  | String c s' =>
      match digit c with
      | Some d => digits s' (10 * acc + d)%N
      | None => None
      end
  end.

(** A key is an array index when it is the canonical decimal form of an
    integer below [2^32 - 1]. *)
Definition array_index (s : string) : option N :=
  match s with
  | EmptyString => None
  | String "0"%char EmptyString => Some 0%N
  | String "0"%char _ => None
  | _ =>
      match digits s 0 with
      | Some n => if (n <? 4294967295)%N then Some n else None
      | None => None
      end
  end.

Fixpoint insert_index (n : N) (k : string) (l : list (N * string))
  : list (N * string) :=
  match l with
  | [] => [(n, k)]
  | (m, j) :: l' =>
      if (n <=? m)%N then (n, k) :: l else (m, j) :: insert_index n k l'
  end.

Fixpoint index_keys (ks : list string) : list (N * string) :=
  match ks with
  | [] => []
  | k :: ks' =>
      match array_index k with
      | Some n => insert_index n k (index_keys ks')
      | None => index_keys ks'
      end
  end.

Definition is_index (k : string) : bool :=
  match array_index k with Some _ => true | None => false end.

(** [Object.keys(obj)]: array indices in ascending order, then the other
    keys in creation order. *)
Definition keys {A : Type} (o : Obj A) : list string :=
  let ks := map fst o in
  map snd (index_keys ks) ++ filter (fun k => negb (is_index k)) ks.

End JsObject.

(* ================================================================== *)
(** ** Promises *)

Module Bluebird.

(** How a promise ends: it fulfils, it rejects, or it stays pending. *)
Inductive Fate (A : Type) : Type :=
| Fulfils (a : A)
| Rejects (e : Error)
| Never.
Arguments Fulfils {A} a.
Arguments Rejects {A} e.
Arguments Never {A}.

(** A promise as the code that receives it sees it: settled already, or
    pending with the fate it will meet. *)
Inductive Promise (A : Type) : Type :=
| Fulfilled (a : A)
| Rejected (e : Error)
| Pending (f : Fate A).
Arguments Fulfilled {A} a.
Arguments Rejected {A} e.
Arguments Pending {A} f.

Definition fate {A : Type} (p : Promise A) : Fate A :=
  match p with
  | Fulfilled a => Fulfils a
  | Rejected e => Rejects e
  | Pending f => f
  end.

(** A value handed to the library: plain, or itself a promise. *)
Inductive JsVal : Type :=
| Plain (v : Value)
| Thenable (p : Promise Value).

(** [Promise.resolve(x)]: a promise is passed through, another value
    is wrapped in a fulfilled promise. *)
Definition Promise_resolve (x : JsVal) : Promise Value :=
  match x with
  | Plain v => Fulfilled v
  | Thenable p => p
  end.

(** [Promise.resolve(l)] for a list, which is never a promise. *)
Definition Promise_resolved {A : Type} (l : list A) : Promise (list A) :=
  Fulfilled l.

(** [Promise.reject(e)] *)
Definition Promise_reject {A : Type} (e : Error) : Promise A := Rejected e.

Definition fate_map {A B : Type} (f : A -> B) (x : Fate A) : Fate B :=
  match x with
  | Fulfils a => Fulfils (f a)
  | Rejects e => Rejects e
  | Never => Never
  end.

(** [p.then(f)] for a handler [f] that returns a plain value and does
    not throw; the new promise settles after [p] does. *)
Definition then_ {A B : Type} (f : A -> B) (p : Promise A) : Promise B :=
  Pending (fate_map f (fate p)).

(** [p.then(f)] for a handler that may throw, or return a promise. *)
Definition then_call {A : Type} (f : A -> Outcome JsVal) (p : Promise A)
  : Promise Value :=
  Pending
    match fate p with
    | Fulfils a =>
        match f a with
        | Returns x => fate (Promise_resolve x)
        | Throws e => Rejects e
        end
    | Rejects e => Rejects e
    | Never => Never
    end.

(** [p.filter(f)] with a filterer that neither throws nor suspends. *)
Definition filter {A : Type} (f : A -> bool) (p : Promise (list A))
  : Promise (list A) :=
  Pending (fate_map (List.filter f) (fate p)).

(** [p.reduce(f, init)] with a pure reducer. *)
Definition reduce {A B : Type} (f : B -> A -> B) (init : B)
  (p : Promise (list A)) : Promise B :=
  Pending (fate_map (fun l => fold_left f l init) (fate p)).

(** The filterer of [p.filter(f)] is called with the item, its index and
    the length of the list; here it may throw.  The first throw rejects
    the result. *)
Fixpoint filter_from {A : Type} (f : A -> nat -> nat -> Outcome bool)
  (len i : nat) (l : list A) : Fate (list A) :=
  match l with
  | [] => Fulfils []
  | a :: l' =>
      match f a i len with
      | Throws e => Rejects e
      | Returns b =>
          fate_map (fun r => if b then a :: r else r)
                   (filter_from f len (S i) l')
      end
  end.

Definition filter_call {A : Type} (f : A -> nat -> nat -> Outcome bool)
  (p : Promise (list A)) : Promise (list A) :=
  Pending
    match fate p with
    | Fulfils l => filter_from f (List.length l) 0 l
    | Rejects e => Rejects e
    | Never => Never
    end.

(** The state of a running [map]: rejected on the spot (a mapper threw or
    returned a promise that was rejected already), or still collecting,
    with the fate the collected promises lead to. *)
Inductive Collect (A : Type) : Type :=
| Stopped (e : Error)
| Collecting (f : Fate (list A)).
Arguments Stopped {A} e.
Arguments Collecting {A} f.

(** Adds the promise of an earlier item in front of what the later items
    gave.  A rejection on the spot comes first in time; among promises
    that reject later the model lets the leftmost one win. *)
Definition collect {A : Type} (p : Fate A) (rest : Collect A) : Collect A :=
  match rest with
  | Stopped e => Stopped e
  | Collecting r =>
      Collecting
        match p with
        | Rejects e => Rejects e
        | Fulfils a => fate_map (cons a) r
        | Never => match r with Rejects e => Rejects e | _ => Never end
        end
  end.

Definition collected {A : Type} (c : Collect A) : Fate (list A) :=
  match c with
  | Stopped e => Rejects e
  | Collecting f => f
  end.

Section Map.
Variables S A B : Type.
Variable mapper : A -> S -> S * Outcome (Promise B).

(** The mapper is called on the items from left to right, as long as no
    call has rejected the result on the spot. *)
Fixpoint map_each (l : list A) (s : S) : S * Collect B :=
  match l with
  | [] => (s, Collecting (Fulfils []))
  | a :: l' =>
      match mapper a s with
      | (s1, Throws e) => (s1, Stopped e)
      | (s1, Returns (Rejected e)) => (s1, Stopped e)
      | (s1, Returns p) =>
          let (s2, rest) := map_each l' s1 in (s2, collect (fate p) rest)
      end
  end.

(** [p.map(mapper)]: once [p] has fulfilled with a list the mapper runs
    over it; the result is a fresh, pending promise. *)
Definition map (p : Promise (list A)) (s : S) : S * Promise (list B) :=
  match fate p with
  | Fulfils l =>
      let (s', c) := map_each l s in (s', Pending (collected c))
  | Rejects e => (s, Pending (Rejects e))
  | Never => (s, Pending Never)
  end.
End Map.
Arguments map_each {S A B} mapper l s.
Arguments map {S A B} mapper p s.

End Bluebird.
Export Bluebird.

(* ================================================================== *)
(** ** Provider *)

Module Provider.

(** Modelled from the spec: [provider.js] is not part of the sources at
    hand; the definitions of this module follow sections 3 and 4.1 of
    the specification.

    A factory is a zero-argument function with a side effect of its own:
    it counts its calls, and what a call gives may depend on how many
    calls came before (the closure of the test 'Memoized resolve' is
    [count++]). *)
Record Fn : Type := { calls : nat; body : nat -> Outcome JsVal }.

(** [fn()] *)
Definition invoke (fn : Fn) : Fn * Outcome JsVal :=
  ({| calls := S (calls fn); body := body fn |}, body fn (calls fn)).

(** Modelled from the spec: the three strategies of section 3. *)
Inductive Strategy : Type :=
| Literal (value : JsVal)
| Factory (fn : Fn)
| Alias (targetKey : string).

(** Modelled from the spec: the fields [strategy] (absent until one of
    [as], [with], [aliasTo] is called) and [cached] of section 3.  What
    a factory call gave, a value or a failure, is what is cached
    (section 7: a failed factory is not called again). *)
Record Provider : Type :=
  { strategy : option Strategy; cached : option (Outcome JsVal) }.

(** [new Provider(context)] *)
Definition new : Provider := {| strategy := None; cached := None |}.

(** Modelled from the spec: [as(value)] sets the strategy to
    [Literal(value)]. *)
Definition as_ (value : JsVal) (p : Provider) : Provider :=
  {| strategy := Some (Literal value); cached := cached p |}.

(** Modelled from the spec: [with(factory)] sets the strategy to
    [Factory(factory)]. *)
Definition with_ (factory : Fn) (p : Provider) : Provider :=
  {| strategy := Some (Factory factory); cached := cached p |}.

(** Modelled from the spec: [aliasTo(key)] sets the strategy to
    [Alias(key)]. *)
Definition aliasTo (key : string) (p : Provider) : Provider :=
  {| strategy := Some (Alias key); cached := cached p |}.

(** What a call of [get()] comes to: the provider answers itself, and is
    left in the state [self], or it hands over to [context.resolve]. *)
Inductive Production : Type :=
| Produced (self : Provider) (result : Outcome JsVal)
| Delegated (targetKey : string).

(** Modelled from the spec: [get()] of section 4.1.  A literal is
    returned; a factory is called on the first [get()] only and its
    result cached; an alias delegates to the owning context; a provider
    without strategy signals a configuration error, which section 7 has
    surface as a failed asynchronous result: a rejected promise.
    Nothing here catches what a factory throws. *)
Definition get (p : Provider) : Production :=
  match strategy p with
  | None => Produced p (Returns (Thenable (Rejected UnconfiguredProvider)))
  | Some (Literal value) => Produced p (Returns value)
  | Some (Factory fn) =>
      match cached p with
      | Some result => Produced p result
      | None =>
          let (fn', result) := invoke fn in
          Produced {| strategy := Some (Factory fn'); cached := Some result |}
                   result
      end
  | Some (Alias key) => Delegated key
  end.

End Provider.

(* ================================================================== *)
(** ** Context *)

Module Context.

Import Provider.

(** An instance: its [name] ([None] when the constructor got no
    argument) and its table [_providers]. *)
Record Context : Type :=
  { name : option string; _providers : JsObject.Obj Provider }.

(** An instance as the constructor leaves it. *)
Definition fresh (name : option string) : Context :=
  {| name := name; _providers := JsObject.empty |}.

(** The state shared by all instances: the objects created so far (an
    instance is referred to by its position in [heap]) and the static
    table [Context._repo]. *)
Record Process : Type :=
  { heap : list Context; _repo : JsObject.Obj nat }.

Definition boot : Process := {| heap := []; _repo := JsObject.empty |}.

(** [Context.get(name)]: the instance registered under [name], [None]
    when there is none. *)
Definition get (name : string) (proc : Process) : option nat :=
  JsObject.get name (_repo proc).

(** [Context.delete(name)] *)
Definition delete (name : string) (proc : Process) : Process :=
  {| heap := heap proc; _repo := JsObject.delete name (_repo proc) |}.

(** The value of the constructor's argument. *)
Definition name_value (name : option string) : Value :=
  match name with
  | Some n => VString n
  | None => VUndefined
  end.

(** [new Context(name)]: gives the new state and the new instance. *)
Definition constructor (name : option string) (proc : Process)
  : Process * nat :=
  let this := fresh name in
  let ref := List.length (heap proc) in
  ({| heap := (heap proc ++ [this])%list;
      _repo :=
        match name with
        | Some n =>
            if truthy (name_value name)
            then JsObject.set n ref (_repo proc)
            else _repo proc
        | None => _repo proc
        end |},
   ref).

(** [provide(key)] *)
Definition provide (key : string) (this : Context) : Context * Provider :=
  let provider := Provider.new in
  ({| name := name this;
      _providers := JsObject.set key provider (_providers this) |},
   provider).

(** A method call on the provider object held at [key].  [provide]
    returns the very object it stored, so [provide(key).as(v)] is
    [provide key] followed by [at_key key (as_ v)]. *)
Definition at_key (key : string) (method : Provider -> Provider)
  (this : Context) : Context :=
  match JsObject.get key (_providers this) with
  | Some provider =>
      {| name := name this;
         _providers := JsObject.set key (method provider) (_providers this) |}
  | None => this
  end.

Definition provide_as (key : string) (value : JsVal) (this : Context)
  : Context := at_key key (as_ value) (fst (provide key this)).

Definition provide_with (key : string) (factory : Fn) (this : Context)
  : Context := at_key key (with_ factory) (fst (provide key this)).

Definition provide_aliasTo (key target : string) (this : Context)
  : Context := at_key key (aliasTo target) (fst (provide key this)).

(** [resolve(key)].  [depth] is the room left on the call stack: an
    alias makes [get()] call [resolve] again, and a chain of aliases
    longer than the stack allows ends in a [RangeError].  For a name the
    table does not own, [this._providers[key]] is [undefined] unless the
    literal inherits a member of that name; such a member is not
    [undefined] and has no method [get], so that the call [provider.get()]
    throws a [TypeError]. *)
Fixpoint resolve (depth : nat) (key : string) (this : Context)
  : Context * Outcome (Promise Value) :=
  match JsObject.get key (_providers this) with
  | None =>
      if JsObject.inherited key
      then (this, Throws TypeError)
      else
        (this,
         Returns (Promise_reject
                    (DependencyError ("Cannot find provider for: " ++ key))))
  | Some provider =>
      match Provider.get provider with
      | Produced provider' result =>
          (* [get()] has left the provider object in the state [provider'] *)
          ({| name := name this;
              _providers := JsObject.set key provider' (_providers this) |},
           match result with
           | Returns x => Returns (Promise_resolve x)
           | Throws e => Throws e
           end)
      | Delegated target =>
          match depth with
          | O => (this, Throws RangeError)
          | S depth' =>
              match resolve depth' target this with
              | (this', Returns p) =>
                  (this', Returns (Promise_resolve (Thenable p)))
              | (this', Throws e) => (this', Throws e)
              end
          end
      end
  end.

(** The conditions [resolveAll] tells apart.  A pattern is a matcher on
    the key text without state of its own (no global or sticky flag); a
    function gets the key, its index and the number of keys, and its
    answer is read as a boolean; any other value is a key. *)
Inductive Cond : Type :=
| CArray (conds : list Cond)
| CRegExp (test : string -> bool)
| CFunction (f : string -> nat -> nat -> Outcome bool)
| CUndefined
| CTrue
| CNull
| CFalse
| CKey (key : string).

(** [values => !!values] *)
Definition truthy_value (values : Value) : bool := truthy values.

(** [resolveAll(cond)].  The context that comes back is the one left
    when every callback the call gives rise to has run; the library may
    run the callbacks of nested calls in another order than written
    here, which changes neither what a key resolves to nor how often a
    factory is called. *)
Fixpoint resolveAll (depth : nat) (cond : Cond) (this : Context)
  {struct cond} : Context * Outcome (Promise (list Value)) :=
  match cond with
  | CArray conds =>
      let (this', mapped) :=
        Bluebird.map (fun c => resolveAll depth c)
                     (Promise_resolved conds) this in
      (this',
       Returns
         (Bluebird.filter truthy_value
            (Bluebird.reduce (fun acc item => (acc ++ item)%list) [] mapped)))
  | CRegExp test =>
      let (this', mapped) :=
        Bluebird.map (fun key => resolve depth key)
          (Bluebird.filter (fun key => test key)
             (Promise_resolved (JsObject.keys (_providers this))))
          this in
      (this', Returns (Bluebird.filter truthy_value mapped))
  | CFunction f =>
      let (this', mapped) :=
        Bluebird.map (fun key => resolve depth key)
          (Bluebird.filter_call f
             (Promise_resolved (JsObject.keys (_providers this))))
          this in
      (this', Returns (Bluebird.filter truthy_value mapped))
  | CUndefined | CTrue =>
      let (this', mapped) :=
        Bluebird.map (fun key => resolve depth key)
          (Promise_resolved (JsObject.keys (_providers this))) this in
      (this', Returns (Bluebird.filter truthy_value mapped))
  | CNull | CFalse => (this, Returns (Promise_resolved []))
  | CKey key =>
      match resolve depth key this with
      | (this', Returns p) =>
          (this',
           Returns
             (Bluebird.filter truthy_value (then_ (fun value => [value]) p)))
      | (this', Throws e) => (this', Throws e)
      end
  end.

(** [using(cond, consumer)(...ownArgs)] *)
Definition using_ (depth : nat) (cond : Cond)
  (consumer : list Value -> Outcome JsVal) (ownArgs : list Value)
  (this : Context) : Context * Outcome (Promise Value) :=
  match resolveAll depth cond this with
  | (this', Returns p) =>
      (this',
       Returns (then_call (fun values => consumer (values ++ ownArgs)%list) p))
  | (this', Throws e) => (this', Throws e)
  end.

End Context.

(* ================================================================== *)
(** ** What a caller observes *)

Module Observe.

Import Provider Context.

(** How a call ends for a caller that awaits its result: a synchronous
    throw and a rejected promise both end the wait with the error. *)
Definition awaited {A : Type} (o : Outcome (Promise A)) : Fate A :=
  match o with
  | Returns p => fate p
  | Throws e => Rejects e
  end.

(** The call gave a promise that rejects: a failed asynchronous
    result. *)
Definition fails_async {A : Type} (o : Outcome (Promise A)) : Prop :=
  exists p e, o = Returns p /\ fate p = Rejects e.

(** The call failed, one way or the other. *)
Definition fails {A : Type} (o : Outcome (Promise A)) : Prop :=
  exists e, awaited o = Rejects e.

(** The keys a condition selects among the keys [ks] of the table. *)
Fixpoint selected_in (ks : list string) (cond : Cond) : list string :=
  match cond with
  | CArray conds => flat_map (selected_in ks) conds
  | CRegExp test => List.filter test ks
  | CFunction f =>
      match filter_from f (List.length ks) 0 ks with
      | Fulfils l => l
      | _ => []
      end
  | CUndefined | CTrue => ks
  | CNull | CFalse => []
  | CKey key => [key]
  end.

Definition selected (cond : Cond) (this : Context) : list string :=
  selected_in (JsObject.keys (_providers this)) cond.

(** [n] calls of [resolve(key)] in a row, each awaited before the next:
    the state they leave and what each call gave. *)
Fixpoint resolve_times (depth : nat) (key : string) (n : nat)
  (this : Context) : Context * list (Outcome (Promise Value)) :=
  match n with
  | O => (this, [])
  | S n' =>
      let (this1, r) := resolve depth key this in
      let (this2, rs) := resolve_times depth key n' this1 in
      (this2, r :: rs)
  end.

(** How often the factory held at [key] has been called. *)
Definition factory_calls (key : string) (this : Context) : option nat :=
  match JsObject.get key (_providers this) with
  | Some {| strategy := Some (Factory fn) |} => Some (calls fn)
  | _ => None
  end.

(** What [resolve] makes of the result of [get()]. *)
Definition wrapped (result : Outcome JsVal) : Outcome (Promise Value) :=
  match result with
  | Returns x => Returns (Promise_resolve x)
  | Throws e => Throws e
  end.

(** How the promise of [then] ends when its handler gave [r]. *)
Definition handled (r : Outcome JsVal) : Fate Value :=
  match r with
  | Returns x => fate (Promise_resolve x)
  | Throws e => Rejects e
  end.

(** The sub-conditions of an array run one after the other, each on the
    state the one before left, and each yields a list. *)
Inductive each_yields (depth : nat)
  : list Cond -> Context -> Context -> list (list Value) -> Prop :=
| each_nil this : each_yields depth [] this this []
| each_cons c cs this this1 this2 o l ls :
    resolveAll depth c this = (this1, o) ->
    awaited o = Fulfils l ->
    each_yields depth cs this1 this2 ls ->
    each_yields depth (c :: cs) this this2 (l :: ls).

(** The keys of a list are resolved one after the other and each yields
    a value. *)
Inductive keys_yield (depth : nat)
  : list string -> Context -> Context -> list Value -> Prop :=
| keys_nil this : keys_yield depth [] this this []
| keys_cons k ks this this1 this2 o v vs :
    resolve depth k this = (this1, o) ->
    awaited o = Fulfils v ->
    keys_yield depth ks this1 this2 vs ->
    keys_yield depth (k :: ks) this this2 (v :: vs).

(** One step of memoization: nothing changed, or the provider at one key
    went from "factory, not produced" to "factory called once more,
    result cached". *)
Definition memo_step (this this' : Context) : Prop :=
  this' = this \/
  exists t fn,
    JsObject.get t (_providers this)
    = Some {| strategy := Some (Factory fn); cached := None |} /\
    this' =
      {| name := name this;
         _providers :=
           JsObject.set t
             {| strategy := Some (Factory (fst (invoke fn)));
                cached := Some (snd (invoke fn)) |}
             (_providers this) |}.

(** Induction on conditions, with the hypothesis for every element of an
    array. *)
Section CondInduction.
Variable P : Cond -> Prop.
Hypothesis HArray : forall conds, Forall P conds -> P (CArray conds).
Hypothesis HRegExp : forall test, P (CRegExp test).
Hypothesis HFunction : forall f, P (CFunction f).
Hypothesis HUndefined : P CUndefined.
Hypothesis HTrue : P CTrue.
Hypothesis HNull : P CNull.
Hypothesis HFalse : P CFalse.
Hypothesis HKey : forall key, P (CKey key).

Fixpoint Cond_nested_ind (c : Cond) : P c :=
  match c with
  | CArray conds =>
      HArray conds
        ((fix all (l : list Cond) : Forall P l :=
            match l with
            | [] => Forall_nil P
            | x :: l' => Forall_cons x (Cond_nested_ind x) (all l')
            end) conds)
  | CRegExp test => HRegExp test
  | CFunction f => HFunction f
  | CUndefined => HUndefined
  | CTrue => HTrue
  | CNull => HNull
  | CFalse => HFalse
  | CKey key => HKey key
  end.
End CondInduction.

(** Two states in which every key resolves the same way. *)
Definition same_answers (this this' : Context) : Prop :=
  name this' = name this /\
  List.map fst (_providers this') = List.map fst (_providers this) /\
  forall d k, snd (resolve d k this') = snd (resolve d k this).

End Observe.

(* ================================================================== *)
(** ** The data of the repository's tests *)

Module Fixtures.

Import Context.

Definition key : string := "test-key".
Definition value : Value := VString "test-value".

(** [context.provide(key).as(value)] on a new, unnamed context. *)
Definition given : Context := provide_as key (Plain value) (fresh None).

End Fixtures.

(* ================================================================== *)
(** ** The states a program can reach *)

Module Reach.

Import Context.

(** The states of the static table that calls of the constructor and of
    [Context.delete] lead to, from the start of the program. *)
Inductive reachable : Process -> Prop :=
| reach_boot : reachable boot
| reach_constructor name proc :
    reachable proc -> reachable (fst (constructor name proc))
| reach_delete name proc :
    reachable proc -> reachable (delete name proc).

(** The contexts that the constructor and calls of the methods lead to:
    [provide] with a key other than ['__proto__'], a method of a
    provider it returned, [resolve], [resolveAll] (a function made by
    [using] leaves what [resolveAll] leaves). *)
Inductive built : Context -> Prop :=
| built_fresh name : built (fresh name)
| built_provide key this :
    key <> "__proto__" -> built this -> built (fst (provide key this))
| built_at_key key method this : built this -> built (at_key key method this)
| built_resolve depth key this :
    built this -> built (fst (resolve depth key this))
| built_resolveAll depth cond this :
    built this -> built (fst (resolveAll depth cond this)).


End Reach.

(* ================================================================== *)
(** ** Facts about tables *)

Module JsObjectFacts.

Import JsObject.

Section Table.
Variable A : Type.
Implicit Types (o : Obj A) (k key : string) (a : A).

Lemma get_set_same o key a : get key (set key a o) = Some a.
Proof.
  induction o as [|[k b] o IH]; simpl.
  - now rewrite String.eqb_refl.
  - destruct (k =? key) eqn:E; simpl; rewrite E; auto.
Qed.

Lemma get_set_other o key k a :
  k <> key -> get k (set key a o) = get k o.
Proof.
  intros Hne.
  induction o as [|[j b] o IH]; simpl.
  - destruct (key =? k) eqn:E; auto.
    apply String.eqb_eq in E. congruence.
  - destruct (j =? key) eqn:E; simpl.
    + apply String.eqb_eq in E. subst j.
      destruct (key =? k) eqn:E'; auto.
      apply String.eqb_eq in E'. congruence.
    + now rewrite IH.
Qed.

(** Writing to a property that exists creates no property. *)
Lemma set_present_names o key a :
  get key o <> None -> List.map fst (set key a o) = List.map fst o.
Proof.
  induction o as [|[j b] o IH]; simpl; intros H.
  - congruence.
  - destruct (j =? key) eqn:E; simpl; auto.
    now rewrite IH.
Qed.

Lemma set_present_keys o key a :
  get key o <> None -> keys (set key a o) = keys o.
Proof.
  intros H. unfold keys. now rewrite set_present_names.
Qed.

(** Writing back what is there changes nothing. *)
Lemma set_same_value o key a : get key o = Some a -> set key a o = o.
Proof.
  induction o as [|[j b] o IH]; simpl; intros H.
  - discriminate.
  - destruct (j =? key) eqn:E.
    + now injection H as ->.
    + now rewrite IH.
Qed.

(** A second write to the same property overrides the first. *)
Lemma set_set o key a b : set key b (set key a o) = set key b o.
Proof.
  induction o as [|[j c] o IH]; simpl.
  - now rewrite String.eqb_refl.
  - destruct (j =? key) eqn:E; simpl; rewrite E; auto.
    now rewrite IH.
Qed.

Lemma set_names_nodup o key a :
  NoDup (List.map fst o) -> NoDup (List.map fst (set key a o)).
Proof.
  induction o as [|[j b] o IH]; simpl; intros H.
  - constructor; [intros [] | constructor].
  - inversion H as [|? ? Hnotin Hrest]; subst.
    destruct (j =? key) eqn:E; simpl.
    + now constructor.
    + constructor; auto.
      intros Hin. apply Hnotin.
      clear - Hin E.
      induction o as [|[i c] o IH]; simpl in *.
      * destruct Hin as [->|[]]. now rewrite String.eqb_refl in E.
      * destruct (i =? key) eqn:E'; simpl in *; auto.
        destruct Hin as [->|Hin]; auto.
Qed.
End Table.

End JsObjectFacts.

(* ================================================================== *)
(** ** Facts about resolution *)

Module ResolveFacts.

Import Provider Context Observe JsObjectFacts.

Lemma context_eta (this : Context) :
  {| name := name this; _providers := _providers this |} = this.
Proof. now destruct this. Qed.

(** [resolve] on a key whose provider answers by itself. *)
Lemma resolve_produced depth key this provider self result :
  JsObject.get key (_providers this) = Some provider ->
  Provider.get provider = Produced self result ->
  resolve depth key this
  = ({| name := name this;
        _providers := JsObject.set key self (_providers this) |},
     wrapped result).
Proof.
  intros Hget Hprod. destruct depth; simpl; rewrite Hget, Hprod; reflexivity.
Qed.

Lemma resolve_missing depth key this :
  JsObject.get key (_providers this) = None ->
  resolve depth key this
  = (this,
     if JsObject.inherited key then Throws TypeError
     else Returns (Rejected (DependencyError
                               ("Cannot find provider for: " ++ key)))).
Proof.
  intros Hget.
  destruct depth; simpl; rewrite Hget; destruct (JsObject.inherited key);
    reflexivity.
Qed.

(** [resolve] on an alias is [resolve] on its target, one frame deeper. *)
Lemma resolve_delegated depth key this provider target :
  JsObject.get key (_providers this) = Some provider ->
  Provider.get provider = Delegated target ->
  resolve (S depth) key this = resolve depth target this.
Proof.
  intros Hget Hdel. simpl. rewrite Hget, Hdel.
  destruct (resolve depth target this) as [this' [p|e]]; reflexivity.
Qed.

Lemma resolve_overflow key this provider target :
  JsObject.get key (_providers this) = Some provider ->
  Provider.get provider = Delegated target ->
  resolve 0 key this = (this, Throws RangeError).
Proof.
  intros Hget Hdel. simpl. now rewrite Hget, Hdel.
Qed.

(** The shapes of [get()]. *)
Lemma get_shapes (p : Provider) :
  Provider.get p
  = Produced p (Returns (Thenable (Rejected UnconfiguredProvider)))
  /\ strategy p = None
  \/ (exists result, Provider.get p = Produced p result /\ strategy p <> None)
  \/ (exists fn,
        p = {| strategy := Some (Factory fn); cached := None |} /\
        Provider.get p
        = Produced {| strategy := Some (Factory (fst (invoke fn)));
                      cached := Some (snd (invoke fn)) |}
                   (snd (invoke fn)))
  \/ (exists target, Provider.get p = Delegated target).
Proof.
  destruct p as [[[v|fn|t]|] [r|]]; unfold Provider.get; simpl;
    try (left; split; reflexivity);
    try (right; left; eexists; split; [reflexivity|discriminate]);
    try (right; right; right; eexists; reflexivity).
  right; right; left. eexists; split; reflexivity.
Qed.

Lemma resolve_memo_step depth : forall key this,
  memo_step this (fst (resolve depth key this)).
Proof.
  induction depth as [|depth IH]; intros key this.
  - destruct (JsObject.get key (_providers this)) as [p|] eqn:Hget.
    + destruct (get_shapes p) as [[Hp _]|[[r [Hp _]]|[[fn [-> Hp]]|[t Hp]]]].
      * rewrite (resolve_produced _ _ _ _ _ _ Hget Hp); simpl.
        left. rewrite (set_same_value _ _ _ _ Hget). apply context_eta.
      * rewrite (resolve_produced _ _ _ _ _ _ Hget Hp); simpl.
        left. rewrite (set_same_value _ _ _ _ Hget). apply context_eta.
      * rewrite (resolve_produced _ _ _ _ _ _ Hget Hp); simpl.
        right. exists key, fn. split; [exact Hget | reflexivity].
      * rewrite (resolve_overflow _ _ _ _ Hget Hp). now left.
    + rewrite (resolve_missing _ _ _ Hget). now left.
  - destruct (JsObject.get key (_providers this)) as [p|] eqn:Hget.
    + destruct (get_shapes p) as [[Hp _]|[[r [Hp _]]|[[fn [-> Hp]]|[t Hp]]]].
      * rewrite (resolve_produced _ _ _ _ _ _ Hget Hp); simpl.
        left. rewrite (set_same_value _ _ _ _ Hget). apply context_eta.
      * rewrite (resolve_produced _ _ _ _ _ _ Hget Hp); simpl.
        left. rewrite (set_same_value _ _ _ _ Hget). apply context_eta.
      * rewrite (resolve_produced _ _ _ _ _ _ Hget Hp); simpl.
        right. exists key, fn. split; [exact Hget | reflexivity].
      * rewrite (resolve_delegated _ _ _ _ _ Hget Hp). apply IH.
    + rewrite (resolve_missing _ _ _ Hget). now left.
Qed.

Lemma memo_step_same_answers this this' :
  memo_step this this' -> same_answers this this'.
Proof.
  intros [->|(t & fn & Hget & ->)].
  - repeat split.
  - assert (Hpresent : JsObject.get t (_providers this) <> None)
      by (rewrite Hget; discriminate).
    split; [reflexivity|]. split.
    + simpl. now apply set_present_names.
    + set (P' := {| strategy := Some (Factory (fst (invoke fn)));
                    cached := Some (snd (invoke fn)) |}).
      set (this' := {| name := name this;
                       _providers := JsObject.set t P' (_providers this) |}).
      intros d. induction d as [|d IH]; intros k.
      * destruct (string_dec k t) as [->|Hne].
        -- rewrite (resolve_produced 0 t this' P' P' (snd (invoke fn)));
             [| apply get_set_same | reflexivity ].
           now rewrite (resolve_produced 0 t this _ P' (snd (invoke fn)) Hget).
        -- assert (Hk : JsObject.get k (_providers this')
                        = JsObject.get k (_providers this))
             by (apply get_set_other; exact Hne).
           destruct (JsObject.get k (_providers this)) as [p|] eqn:Hgetk.
           ++ destruct (Provider.get p) as [self r|target] eqn:Hp.
              ** now rewrite (resolve_produced _ _ _ _ _ _ Hk Hp),
                   (resolve_produced _ _ _ _ _ _ Hgetk Hp).
              ** now rewrite (resolve_overflow _ _ _ _ Hk Hp),
                   (resolve_overflow _ _ _ _ Hgetk Hp).
           ++ now rewrite (resolve_missing _ _ _ Hk),
                (resolve_missing _ _ _ Hgetk).
      * destruct (string_dec k t) as [->|Hne].
        -- rewrite (resolve_produced (S d) t this' P' P' (snd (invoke fn)));
             [| apply get_set_same | reflexivity ].
           now rewrite (resolve_produced (S d) t this _ P' (snd (invoke fn)) Hget).
        -- assert (Hk : JsObject.get k (_providers this')
                        = JsObject.get k (_providers this))
             by (apply get_set_other; exact Hne).
           destruct (JsObject.get k (_providers this)) as [p|] eqn:Hgetk.
           ++ destruct (Provider.get p) as [self r|target] eqn:Hp.
              ** now rewrite (resolve_produced _ _ _ _ _ _ Hk Hp),
                   (resolve_produced _ _ _ _ _ _ Hgetk Hp).
              ** rewrite (resolve_delegated _ _ _ _ _ Hk Hp),
                   (resolve_delegated _ _ _ _ _ Hgetk Hp). apply IH.
           ++ now rewrite (resolve_missing _ _ _ Hk),
                (resolve_missing _ _ _ Hgetk).
Qed.

Lemma same_answers_refl this : same_answers this this.
Proof. repeat split. Qed.

Lemma same_answers_trans a b c :
  same_answers a b -> same_answers b c -> same_answers a c.
Proof.
  intros (Hn1 & Hk1 & Hr1) (Hn2 & Hk2 & Hr2). repeat split.
  - congruence.
  - congruence.
  - intros d k. now rewrite Hr2, Hr1.
Qed.

Lemma same_answers_keys a b :
  same_answers a b ->
  JsObject.keys (_providers b) = JsObject.keys (_providers a).
Proof. intros (_ & Hk & _). unfold JsObject.keys. now rewrite Hk. Qed.

Lemma same_answers_selected a b cond :
  same_answers a b -> selected cond b = selected cond a.
Proof. intros H. unfold selected. now rewrite (same_answers_keys _ _ H). Qed.

(** Resolving a key changes the answer of no key. *)
Lemma resolve_same_answers depth key this :
  same_answers this (fst (resolve depth key this)).
Proof. apply memo_step_same_answers, resolve_memo_step. Qed.

Section MapEach.
Variables A B : Type.
Variable mapper : A -> Context -> Context * Outcome (Promise B).

Lemma map_each_same_answers (l : list A) :
  Forall (fun a => forall s, same_answers s (fst (mapper a s))) l ->
  forall s, same_answers s (fst (map_each mapper l s)).
Proof.
  induction 1 as [|a l Ha _ IH]; intros s; simpl.
  - apply same_answers_refl.
  - specialize (Ha s).
    destruct (mapper a s) as [s1 [[b|e|f]|e]]; simpl in *; auto.
    + specialize (IH s1). destruct (map_each mapper l s1) as [s2 rest].
      simpl in *. eapply same_answers_trans; eauto.
    + specialize (IH s1). destruct (map_each mapper l s1) as [s2 rest].
      simpl in *. eapply same_answers_trans; eauto.
Qed.

Lemma map_same_answers (p : Promise (list A)) :
  (forall a s, same_answers s (fst (mapper a s))) ->
  forall s, same_answers s (fst (Bluebird.map mapper p s)).
Proof.
  intros Hm s. unfold Bluebird.map.
  destruct (fate p) as [l|e|]; simpl; try apply same_answers_refl.
  assert (H := map_each_same_answers l
                 (proj2 (Forall_forall _ l) (fun a _ => Hm a)) s).
  destruct (map_each mapper l s). exact H.
Qed.
End MapEach.

(** The array branch, spelled out. *)
Lemma resolveAll_array depth conds this :
  resolveAll depth (CArray conds) this
  = (fst (map_each (resolveAll depth) conds this),
     Returns
       (Pending
          (fate_map (List.filter truthy_value)
             (fate_map (fun l => fold_left (fun acc item => acc ++ item)%list l [])
                (collected (snd (map_each (resolveAll depth) conds this))))))).
Proof.
  simpl. unfold Bluebird.map. simpl.
  fold (resolveAll depth).
  change (fun c : Cond => resolveAll depth c) with (resolveAll depth).
  destruct (map_each (resolveAll depth) conds this) as [s c]. reflexivity.
Qed.

(** The branches that resolve a list of keys, spelled out. *)
Lemma map_keys depth (p : Promise (list string)) this :
  (let (this', mapped) := Bluebird.map (fun key => resolve depth key) p this in
   (this', Returns (Bluebird.filter truthy_value mapped)))
  = match fate p with
    | Fulfils l =>
        (fst (map_each (resolve depth) l this),
         Returns
           (Pending
              (fate_map (List.filter truthy_value)
                 (collected (snd (map_each (resolve depth) l this))))))
    | Rejects e => (this, Returns (Pending (Rejects e)))
    | Never => (this, Returns (Pending Never))
    end.
Proof.
  unfold Bluebird.map.
  change (fun key : string => resolve depth key) with (resolve depth).
  destruct (fate p) as [l|e|]; try reflexivity.
  destruct (map_each (resolve depth) l this) as [s c]. reflexivity.
Qed.

Lemma resolveAll_regexp depth test this :
  resolveAll depth (CRegExp test) this
  = let l := List.filter test (JsObject.keys (_providers this)) in
    (fst (map_each (resolve depth) l this),
     Returns
       (Pending
          (fate_map (List.filter truthy_value)
             (collected (snd (map_each (resolve depth) l this)))))).
Proof.
  exact (map_keys depth
           (Bluebird.filter (fun key => test key)
              (Promise_resolved (JsObject.keys (_providers this)))) this).
Qed.

Lemma resolveAll_function depth f this :
  resolveAll depth (CFunction f) this
  = let ks := JsObject.keys (_providers this) in
    match filter_from f (List.length ks) 0 ks with
    | Fulfils l =>
        (fst (map_each (resolve depth) l this),
         Returns
           (Pending
              (fate_map (List.filter truthy_value)
                 (collected (snd (map_each (resolve depth) l this))))))
    | Rejects e => (this, Returns (Pending (Rejects e)))
    | Never => (this, Returns (Pending Never))
    end.
Proof.
  exact (map_keys depth
           (Bluebird.filter_call f
              (Promise_resolved (JsObject.keys (_providers this)))) this).
Qed.

Lemma resolveAll_all depth cond this :
  cond = CUndefined \/ cond = CTrue ->
  resolveAll depth cond this
  = let l := JsObject.keys (_providers this) in
    (fst (map_each (resolve depth) l this),
     Returns
       (Pending
          (fate_map (List.filter truthy_value)
             (collected (snd (map_each (resolve depth) l this)))))).
Proof.
  intros [->| ->];
    exact (map_keys depth
             (Promise_resolved (JsObject.keys (_providers this))) this).
Qed.

Lemma resolveAll_key depth key this :
  resolveAll depth (CKey key) this
  = (fst (resolve depth key this),
     match snd (resolve depth key this) with
     | Returns p =>
         Returns
           (Pending
              (fate_map (List.filter truthy_value)
                 (fate_map (fun value => [value]) (fate p))))
     | Throws e => Throws e
     end).
Proof.
  simpl. destruct (resolve depth key this) as [s [p|e]]; reflexivity.
Qed.

(** A whole [resolveAll] changes the answer of no key. *)
Lemma resolveAll_same_answers depth cond :
  forall this, same_answers this (fst (resolveAll depth cond this)).
Proof.
  induction cond as [conds IH|test|f| | | | |key] using Cond_nested_ind;
    intros this.
  - rewrite resolveAll_array; simpl.
    now apply map_each_same_answers.
  - rewrite resolveAll_regexp; simpl.
    apply map_each_same_answers, Forall_forall.
    intros k _ s. apply resolve_same_answers.
  - rewrite resolveAll_function; simpl.
    destruct (filter_from _ _ _ _) as [l|e|]; simpl;
      try apply same_answers_refl.
    apply map_each_same_answers, Forall_forall.
    intros k _ s. apply resolve_same_answers.
  - rewrite resolveAll_all by auto; simpl.
    apply map_each_same_answers, Forall_forall.
    intros k _ s. apply resolve_same_answers.
  - rewrite resolveAll_all by auto; simpl.
    apply map_each_same_answers, Forall_forall.
    intros k _ s. apply resolve_same_answers.
  - apply same_answers_refl.
  - apply same_answers_refl.
  - rewrite resolveAll_key; simpl. apply resolve_same_answers.
Qed.

Lemma filter_all_true {A : Type} (f : A -> bool) (l : list A) :
  Forall (fun a => f a = true) (List.filter f l).
Proof.
  apply Forall_forall. intros a Ha. now apply filter_In in Ha.
Qed.

Lemma filter_of_all_true {A : Type} (f : A -> bool) (l : list A) :
  Forall (fun a => f a = true) l -> List.filter f l = l.
Proof.
  induction 1 as [|a l Ha _ IH]; simpl; [reflexivity|].
  now rewrite Ha, IH.
Qed.

Lemma fate_filter_fulfils {A : Type} (f : A -> bool) (x : Fate (list A)) l :
  fate_map (List.filter f) x = Fulfils l -> Forall (fun a => f a = true) l.
Proof.
  destruct x as [l0|e|]; simpl; try discriminate.
  intros [= <-]. apply filter_all_true.
Qed.

(** Whatever the condition, a list that [resolveAll] yields holds truthy
    values only. *)
Lemma resolveAll_truthy depth cond this l :
  awaited (snd (resolveAll depth cond this)) = Fulfils l ->
  Forall (fun v => truthy v = true) l.
Proof.
  destruct cond as [conds|test|f| | | | |key].
  - rewrite resolveAll_array; simpl. apply fate_filter_fulfils.
  - rewrite resolveAll_regexp; simpl. apply fate_filter_fulfils.
  - rewrite resolveAll_function; simpl.
    destruct (filter_from _ _ _ _) as [l0|e|]; simpl; try discriminate.
    apply fate_filter_fulfils.
  - rewrite resolveAll_all by auto; simpl. apply fate_filter_fulfils.
  - rewrite resolveAll_all by auto; simpl. apply fate_filter_fulfils.
  - simpl. intros [= <-]. constructor.
  - simpl. intros [= <-]. constructor.
  - rewrite resolveAll_key; simpl.
    destruct (snd (resolve depth key this)) as [p|e]; simpl;
      [apply fate_filter_fulfils | discriminate].
Qed.

(** Every condition but a single key gives a promise. *)
Lemma resolveAll_returns depth cond this :
  (forall key, cond <> CKey key) ->
  exists p, snd (resolveAll depth cond this) = Returns p.
Proof.
  intros Hnk. destruct cond as [conds|test|f| | | | |key].
  - rewrite resolveAll_array; simpl. eauto.
  - rewrite resolveAll_regexp; simpl. eauto.
  - rewrite resolveAll_function; simpl.
    destruct (filter_from _ _ _ _); simpl; eauto.
  - rewrite resolveAll_all by auto; simpl; eauto.
  - rewrite resolveAll_all by auto; simpl; eauto.
  - simpl; eauto.
  - simpl; eauto.
  - now destruct (Hnk key).
Qed.

Lemma collect_rejects_rest {A : Type} (p : Fate A) rest e :
  collected rest = Rejects e -> exists e', collected (collect p rest) = Rejects e'.
Proof.
  destruct rest as [e0|r]; simpl.
  - eauto.
  - intros ->. destruct p; simpl; eauto.
Qed.

Lemma collect_rejects_head {A : Type} (rest : Collect A) e :
  exists e', collected (collect (Rejects e) rest) = Rejects e'.
Proof. destruct rest as [e0|r]; simpl; eauto. Qed.

Section MapEachFails.
Variables A B : Type.
Variable mapper : A -> Context -> Context * Outcome (Promise B).
Variable bad : A -> Context -> Prop.
Hypothesis bad_stable : forall a a' s, bad a s -> bad a (fst (mapper a' s)).

(** If one of the items is bound to fail, the whole [map] rejects. *)
Lemma map_each_fails (l : list A) :
  Forall (fun a => forall s, bad a s -> fails (snd (mapper a s))) l ->
  forall s a, In a l -> bad a s ->
  exists e, collected (snd (map_each mapper l s)) = Rejects e.
Proof.
  induction 1 as [|x l Hx _ IH]; intros s a Hin Hbad; [destruct Hin|].
  simpl.
  assert (Hlater : In a l -> exists e,
             collected (snd (map_each mapper l (fst (mapper x s)))) = Rejects e)
    by (intros Hl; apply (IH _ a Hl), bad_stable, Hbad).
  specialize (Hx s).
  destruct (mapper x s) as [s1 [[b|e|f]|e]]; simpl in *; eauto.
  - destruct Hin as [->|Hin].
    + destruct (Hx Hbad) as [e He]. discriminate.
    + destruct (Hlater Hin) as [e He].
      destruct (map_each mapper l s1) as [s2 rest]; simpl in *.
      eapply collect_rejects_rest; eauto.
  - destruct Hin as [->|Hin].
    + destruct (Hx Hbad) as [e He]. simpl in He. subst f.
      destruct (map_each mapper l s1) as [s2 rest]; simpl.
      apply collect_rejects_head.
    + destruct (Hlater Hin) as [e He].
      destruct (map_each mapper l s1) as [s2 rest]; simpl in *.
      eapply collect_rejects_rest; eauto.
Qed.
End MapEachFails.

Lemma keys_fail depth (l : list string) this k :
  In k l -> fails (snd (resolve depth k this)) ->
  exists e, collected (snd (map_each (resolve depth) l this)) = Rejects e.
Proof.
  intros Hin Hbad.
  apply (map_each_fails _ _ (resolve depth)
           (fun k s => fails (snd (resolve depth k s)))) with (a := k); auto.
  - intros a a' s Ha.
    destruct (resolve_same_answers depth a' s) as (_ & _ & Hr).
    now rewrite Hr.
  - apply Forall_forall. auto.
Qed.

(** If the resolution of a selected key fails, [resolveAll] fails. *)
Lemma resolveAll_fails depth cond :
  forall this k,
    In k (selected cond this) -> fails (snd (resolve depth k this)) ->
    fails (snd (resolveAll depth cond this)).
Proof.
  induction cond as [conds IH|test|f| | | | |key] using Cond_nested_ind;
    intros this k Hin Hbad; unfold selected in Hin; simpl in Hin.
  - rewrite resolveAll_array; simpl.
    apply in_flat_map in Hin. destruct Hin as (c & Hc & Hk).
    destruct (map_each_fails _ _ (resolveAll depth)
                (fun c s => exists k, In k (selected c s) /\
                                      fails (snd (resolve depth k s))))
      with (l := conds) (s := this) (a := c) as [e He]; eauto.
    + intros a a' s (k' & Hk' & Hf).
      assert (Hs := resolveAll_same_answers depth a' s).
      exists k'. rewrite (same_answers_selected _ _ a Hs).
      destruct Hs as (_ & _ & Hr). now rewrite Hr.
    + eapply Forall_impl; [|exact IH].
      intros a Ha s (k' & Hk' & Hf). eauto.
    + unfold fails; simpl. rewrite He. simpl. eauto.
  - rewrite resolveAll_regexp; simpl.
    destruct (keys_fail depth _ this k Hin Hbad) as [e He].
    unfold fails; simpl. rewrite He; simpl; eauto.
  - rewrite resolveAll_function; simpl.
    destruct (filter_from _ _ _ _) as [l|e|]; simpl; try now destruct Hin.
    destruct (keys_fail depth _ this k Hin Hbad) as [e He].
    unfold fails; simpl. rewrite He; simpl; eauto.
  - rewrite resolveAll_all by auto; simpl.
    destruct (keys_fail depth _ this k Hin Hbad) as [e He].
    unfold fails; simpl. rewrite He; simpl; eauto.
  - rewrite resolveAll_all by auto; simpl.
    destruct (keys_fail depth _ this k Hin Hbad) as [e He].
    unfold fails; simpl. rewrite He; simpl; eauto.
  - destruct Hin.
  - destruct Hin.
  - destruct Hin as [<-|[]]. rewrite resolveAll_key; simpl.
    destruct Hbad as [e He]. unfold fails.
    destruct (snd (resolve depth key this)) as [p|e0]; simpl in *.
    + rewrite He. simpl. eauto.
    + eauto.
Qed.

Lemma fold_left_app_concat {A : Type} (ls : list (list A)) : forall acc,
  fold_left (fun acc item => acc ++ item)%list ls acc = (acc ++ List.concat ls)%list.
Proof.
  induction ls as [|l ls IH]; intros acc; simpl.
  - now rewrite app_nil_r.
  - now rewrite IH, app_assoc.
Qed.

Lemma each_yields_map_each depth cs this this' ls :
  each_yields depth cs this this' ls ->
  map_each (resolveAll depth) cs this = (this', Collecting (Fulfils ls)).
Proof.
  induction 1 as [this|c cs this this1 this2 o l ls Hc Ho _ IH]; simpl.
  - reflexivity.
  - rewrite Hc. destruct o as [[l0|e|f]|e]; simpl in Ho; try discriminate.
    + injection Ho as ->. now rewrite IH.
    + subst f. now rewrite IH.
Qed.

Lemma each_yields_truthy depth cs this this' ls :
  each_yields depth cs this this' ls ->
  Forall (fun v => truthy v = true) (List.concat ls).
Proof.
  induction 1 as [this|c cs this this1 this2 o l ls Hc Ho _ IH]; simpl.
  - constructor.
  - apply Forall_app. split; [|exact IH].
    apply (resolveAll_truthy depth c this). now rewrite Hc.
Qed.

(** A single key yields the one value, unless it is falsy. *)
Lemma resolveAll_key_value depth key this v :
  awaited (snd (resolve depth key this)) = Fulfils v ->
  awaited (snd (resolveAll depth (CKey key) this))
  = Fulfils (if truthy v then [v] else []).
Proof.
  intros Hv. rewrite resolveAll_key; simpl.
  destruct (snd (resolve depth key this)) as [p|e]; simpl in *;
    [|discriminate].
  rewrite Hv; simpl. unfold truthy_value. now destruct (truthy v).
Qed.

(** An array of one condition ends as the condition does. *)
Lemma resolveAll_singleton depth c this :
  fst (resolveAll depth (CArray [c]) this) = fst (resolveAll depth c this)
  /\ awaited (snd (resolveAll depth (CArray [c]) this))
     = awaited (snd (resolveAll depth c this)).
Proof.
  rewrite resolveAll_array. simpl.
  assert (Ht := resolveAll_truthy depth c this).
  destruct (resolveAll depth c this) as [s1 [[l|e|[l|e|]]|e]]; simpl in *;
    split; try reflexivity.
  - now rewrite (filter_of_all_true truthy_value l (Ht l eq_refl)).
  - now rewrite (filter_of_all_true truthy_value l (Ht l eq_refl)).
Qed.

Lemma fails_async_fails {A : Type} (o : Outcome (Promise A)) :
  fails_async o -> fails o.
Proof. intros (p & e & -> & He). exists e. exact He. Qed.

Lemma fails_returned_async {A : Type} (o : Outcome (Promise A)) :
  fails o -> (exists p, o = Returns p) -> fails_async o.
Proof. intros [e He] [p ->]. exists p, e. split; [reflexivity|exact He]. Qed.

Lemma keys_yield_map_each depth ks this this' vs :
  keys_yield depth ks this this' vs ->
  map_each (resolve depth) ks this = (this', Collecting (Fulfils vs)).
Proof.
  induction 1 as [this|k ks this this1 this2 o v vs Hk Ho _ IH]; simpl.
  - reflexivity.
  - rewrite Hk. destruct o as [[v0|e|f]|e]; simpl in Ho; try discriminate.
    + injection Ho as ->. now rewrite IH.
    + subst f. now rewrite IH.
Qed.

(** The state [provide(key).as(value)] leaves. *)
Lemma provide_as_state key value this :
  provide_as key value this
  = {| name := name this;
       _providers :=
         JsObject.set key {| strategy := Some (Literal value); cached := None |}
                      (_providers this) |}.
Proof.
  unfold provide_as, at_key, provide; simpl.
  rewrite get_set_same; simpl. now rewrite set_set.
Qed.

(** The state [provide(key).with(factory)] leaves. *)
Lemma provide_with_state key factory this :
  provide_with key factory this
  = {| name := name this;
       _providers :=
         JsObject.set key {| strategy := Some (Factory factory); cached := None |}
                      (_providers this) |}.
Proof.
  unfold provide_with, at_key, provide; simpl.
  rewrite get_set_same; simpl. now rewrite set_set.
Qed.

(** The first [resolve] of a factory calls it and caches what it gave. *)
Lemma resolve_first depth key factory this :
  resolve depth key (provide_with key factory this)
  = ({| name := name this;
        _providers :=
          JsObject.set key
            {| strategy := Some (Factory (fst (invoke factory)));
               cached := Some (snd (invoke factory)) |}
            (_providers this) |},
     wrapped (snd (invoke factory))).
Proof.
  rewrite provide_with_state.
  erewrite resolve_produced; [| simpl; apply get_set_same | reflexivity].
  simpl. now rewrite set_set.
Qed.

(** A [resolve] of a factory that has produced calls nothing. *)
Lemma resolve_cached depth key fn result this :
  JsObject.get key (_providers this)
  = Some {| strategy := Some (Factory fn); cached := Some result |} ->
  resolve depth key this = (this, wrapped result).
Proof.
  intros Hget.
  erewrite resolve_produced; [| exact Hget | reflexivity].
  rewrite (set_same_value _ _ _ _ Hget). now rewrite context_eta.
Qed.

Lemma resolve_times_cached depth key fn result this n :
  JsObject.get key (_providers this)
  = Some {| strategy := Some (Factory fn); cached := Some result |} ->
  resolve_times depth key n this = (this, repeat (wrapped result) n).
Proof.
  intros Hget. induction n as [|n IH]; simpl.
  - reflexivity.
  - now rewrite (resolve_cached _ _ _ _ _ Hget), IH.
Qed.

End ResolveFacts.

(* ================================================================== *)
(** ** The test suite of the repository, run on the model *)

Module Tests.

Import Provider Context Observe Fixtures.

Example test_Resolve :
  awaited (snd (resolve 0 key given)) = Fulfils value.
Proof. reflexivity. Qed.

Example test_Memoized_resolve :
  let count := {| calls := 0; body := fun _ => Returns (Plain VUndefined) |} in
  factory_calls key
    (fst (resolve_times 0 key 2 (provide_with key count (fresh None))))
  = Some 1.
Proof. reflexivity. Qed.

Example test_Resolve_Promise :
  awaited (snd (resolve 0 key
                  (provide_as key (Thenable (Fulfilled value)) (fresh None))))
  = Fulfils value.
Proof. reflexivity. Qed.

Example test_Resolve_getter :
  let getter := {| calls := 0; body := fun _ => Returns (Plain value) |} in
  awaited (snd (resolve 0 key (provide_with key getter (fresh None))))
  = Fulfils value.
Proof. reflexivity. Qed.

Example test_Resolve_alias :
  awaited (snd (resolve 1 "test-key-alias"
                  (provide_aliasTo "test-key-alias" key given)))
  = Fulfils value.
Proof. reflexivity. Qed.

Example test_Resolve_all_undefined :
  awaited (snd (resolveAll 0 CUndefined given)) = Fulfils [value].
Proof. reflexivity. Qed.

Example test_Resolve_all_true :
  awaited (snd (resolveAll 0 CTrue given)) = Fulfils [value].
Proof. reflexivity. Qed.

Example test_Resolve_all_null :
  awaited (snd (resolveAll 0 CNull given)) = Fulfils [].
Proof. reflexivity. Qed.

Example test_Resolve_none_false :
  awaited (snd (resolveAll 0 CFalse given)) = Fulfils [].
Proof. reflexivity. Qed.

Example test_Resolve_by_regular_expression :
  awaited (snd (resolveAll 0 (CRegExp (String.prefix "test-")) given))
  = Fulfils [value]
  /\ awaited (snd (resolveAll 0 (CRegExp (String.eqb "test-")) given))
     = Fulfils [].
Proof. split; reflexivity. Qed.

Example test_Resolve_by_array :
  awaited (snd (resolveAll 0 (CArray [CKey key]) given)) = Fulfils [value].
Proof. reflexivity. Qed.

Example test_Resolve_by_predicator_function :
  awaited (snd (resolveAll 0 (CFunction (fun _ _ _ => Returns true)) given))
  = Fulfils [value]
  /\ awaited (snd (resolveAll 0 (CFunction (fun _ _ _ => Returns false)) given))
     = Fulfils [].
Proof. split; reflexivity. Qed.

(** [Object.keys] puts array indices first. *)
Example keys_order :
  JsObject.keys
    (_providers
       (provide_as "9" (Plain VNull)
          (provide_as "b" (Plain VNull)
             (provide_as "10" (Plain VNull)
                (provide_as "01" (Plain VNull) (fresh None))))))
  = ["9"; "10"; "01"; "b"].
Proof. reflexivity. Qed.

(** [using] passes what is registered at the time of the call. *)
Example using_sees_later_registrations :
  let first := fun args => Returns (Plain (nth 0 args VUndefined)) in
  let f := using_ 0 (CKey "a") first [] in
  let before := provide_as "a" (Plain (VNumber 1)) (fresh None) in
  let after := provide_as "a" (Plain (VNumber 2)) (fst (f before)) in
  awaited (snd (f before)) = Fulfils (VNumber 1)
  /\ awaited (snd (f after)) = Fulfils (VNumber 2).
Proof. split; reflexivity. Qed.

(** A cycle of aliases exhausts the stack. *)
Example alias_cycle :
  snd (resolve 5 "a" (provide_aliasTo "b" "a"
                        (provide_aliasTo "a" "b" (fresh None))))
  = Throws RangeError.
Proof. reflexivity. Qed.

End Tests.

(* ================================================================== *)
(** ** The properties of the specification *)

Module ContextSpec.

Import Provider Context Observe JsObjectFacts ResolveFacts.

(** C1.  Whatever the condition, and so at every level of an array of
    conditions, the list [resolveAll] yields holds no falsy value.  A
    single key yields [[v]] when it resolves to a truthy [v] and the
    empty list otherwise; a pattern or the all-marker yields the values
    of the selected keys with exactly the falsy ones left out.  After
    [provide('a').as(0)] on a new context, [resolveAll()] yields the
    empty list. *)
Theorem resolveAll_drops_falsy :
  (forall depth cond this l,
      awaited (snd (resolveAll depth cond this)) = Fulfils l ->
      Forall (fun v => truthy v = true) l)
  /\ (forall depth key this v,
         awaited (snd (resolve depth key this)) = Fulfils v ->
         awaited (snd (resolveAll depth (CKey key) this))
         = Fulfils (if truthy v then [v] else []))
  /\ (forall depth cond this this' vs,
         cond = CUndefined \/ cond = CTrue \/ (exists test, cond = CRegExp test) ->
         keys_yield depth (selected cond this) this this' vs ->
         resolveAll depth cond this
         = (this', Returns (Pending (Fulfils (List.filter truthy vs)))))
  /\ (forall depth name,
         snd (resolveAll depth CUndefined
                (provide_as "a" (Plain (VNumber 0)) (fresh name)))
         = Returns (Pending (Fulfils []))).
Proof.
  split; [|split; [|split]].
  - intros depth cond this l. apply resolveAll_truthy.
  - apply resolveAll_key_value.
  - intros depth cond this this' vs Hcond Hkeys.
    apply keys_yield_map_each in Hkeys.
    destruct Hcond as [->|[->|[test ->]]].
    + rewrite resolveAll_all by auto. unfold selected in Hkeys; simpl in *.
      now rewrite Hkeys.
    + rewrite resolveAll_all by auto. unfold selected in Hkeys; simpl in *.
      now rewrite Hkeys.
    + rewrite resolveAll_regexp. unfold selected in Hkeys; simpl in *.
      now rewrite Hkeys.
  - intros depth name. now destruct depth.
Qed.

Lemma resolveAll_drops_falsy_witness :
  let this :=
    provide_as "a" (Plain (VNumber 0))
      (provide_as "b" (Plain (VString "x")) (fresh None)) in
  awaited (snd (resolveAll 2 (CArray [CKey "a"; CTrue]) this))
  = Fulfils [VString "x"]
  /\ Forall (fun v => truthy v = true) [VString "x"].
Proof.
  split; [reflexivity|].
  exact (proj1 resolveAll_drops_falsy 2 (CArray [CKey "a"; CTrue])
           (provide_as "a" (Plain (VNumber 0))
              (provide_as "b" (Plain (VString "x")) (fresh None)))
           [VString "x"] eq_refl).
Defined.

(** C2 (the code departs from it).  For a key without provider, on a
    context without [provide('__proto__')], [resolve(key)] leaves the
    context as it was; it returns the promise
    rejected with the error whose message ends in the key when the name
    is none that a literal [{}] inherits, and throws a [TypeError],
    returning no promise, when it is one ('constructor', 'toString',
    ...): the table [_providers] is such a literal, and what the lookup
    finds there is not [undefined]. *)
Theorem resolve_throws_on_inherited_name depth key this :
  JsObject.get "__proto__" (_providers this) = None ->
  JsObject.get key (_providers this) = None ->
  (JsObject.inherited key = true ->
   resolve depth key this = (this, Throws TypeError))
  /\ (JsObject.inherited key = false ->
      resolve depth key this
      = (this,
         Returns (Rejected (DependencyError
                              ("Cannot find provider for: " ++ key))))).
Proof.
  intros _ Hget. rewrite (resolve_missing _ _ _ Hget).
  split; intros ->; reflexivity.
Qed.

Lemma resolve_throws_on_inherited_name_witness :
  let this := provide_as "a" (Plain (VNumber 1)) (fresh None) in
  JsObject.get "__proto__" (_providers this) = None
  /\ JsObject.get "constructor" (_providers this) = None
  /\ JsObject.inherited "constructor" = true
  /\ resolve 0 "constructor" this = (this, Throws TypeError).
Proof.
  split; [reflexivity|]. split; [reflexivity|]. split; [reflexivity|].
  exact (proj1 (resolve_throws_on_inherited_name 0 "constructor"
                  (provide_as "a" (Plain (VNumber 1)) (fresh None))
                  eq_refl eq_refl)
           eq_refl).
Defined.

(** C3.  After [provide(key).with(factory)], one or more calls of
    [resolve(key)] in a row call the factory exactly once: its call
    count is one above what it was, however many calls of [resolve]
    follow the first, and every call of [resolve] gives what that one
    call of the factory gave. *)
Theorem factory_invoked_once depth key factory this n :
  1 <= n ->
  factory_calls key (provide_with key factory this) = Some (calls factory)
  /\ factory_calls key
       (fst (resolve_times depth key n (provide_with key factory this)))
     = Some (S (calls factory))
  /\ snd (resolve_times depth key n (provide_with key factory this))
     = repeat (wrapped (body factory (calls factory))) n.
Proof.
  intros Hn. destruct n as [|n]; [inversion Hn|]. split.
  - rewrite provide_with_state. unfold factory_calls; simpl.
    now rewrite get_set_same.
  - simpl. rewrite resolve_first.
    erewrite resolve_times_cached by (simpl; apply get_set_same).
    simpl. split; [|reflexivity].
    unfold factory_calls; simpl. now rewrite get_set_same.
Qed.

Lemma factory_invoked_once_witness :
  let counter :=
    {| calls := 0; body := fun n => Returns (Plain (VNumber (Z.of_nat n))) |} in
  1 <= 2
  /\ factory_calls "test-key"
       (fst (resolve_times 0 "test-key" 2
               (provide_with "test-key" counter (fresh None))))
     = Some 1
  /\ snd (resolve_times 0 "test-key" 2
            (provide_with "test-key" counter (fresh None)))
     = [Returns (Fulfilled (VNumber 0)); Returns (Fulfilled (VNumber 0))].
Proof.
  split; [lia|].
  exact (proj2 (factory_invoked_once 0 "test-key"
                  {| calls := 0;
                     body := fun n => Returns (Plain (VNumber (Z.of_nat n))) |}
                  (fresh None) 2 (le_S 1 1 (le_n 1)))).
Defined.

(** C4 (the code departs from it).  When the factory held at [key]
    throws, [resolve(key)] throws: the call of [get()] is evaluated
    before [Promise.resolve] gets anything to wrap. *)
Theorem resolve_throws_with_factory depth key factory this e :
  body factory (calls factory) = Throws e ->
  snd (resolve depth key (provide_with key factory this)) = Throws e.
Proof.
  intros Hbody. rewrite resolve_first. simpl. now rewrite Hbody.
Qed.

Lemma resolve_throws_with_factory_witness :
  let boom := {| calls := 0; body := fun _ => Throws (Raised (VString "boom")) |} in
  body boom (calls boom) = Throws (Raised (VString "boom"))
  /\ snd (resolve 0 "k" (provide_with "k" boom (fresh None)))
     = Throws (Raised (VString "boom")).
Proof.
  split; [reflexivity|].
  exact (resolve_throws_with_factory 0 "k"
           {| calls := 0; body := fun _ => Throws (Raised (VString "boom")) |}
           (fresh None) (Raised (VString "boom")) eq_refl).
Defined.

(** C5.  After [provide(key)] alone, [resolve(key)] returns a rejected
    promise, the shape it returns for a key without provider, with the
    configuration error that [get()] signals; it leaves the context as
    it was.  [resolveAll(key)] and [resolveAll([key])] then give a
    promise that rejects with that error: no empty list and no list
    with an empty value. *)
Theorem resolve_rejects_unconfigured depth key this :
  resolve depth key (fst (provide key this))
  = (fst (provide key this), Returns (Rejected UnconfiguredProvider))
  /\ snd (resolveAll depth (CKey key) (fst (provide key this)))
     = Returns (Pending (Rejects UnconfiguredProvider))
  /\ snd (resolveAll depth (CArray [CKey key]) (fst (provide key this)))
     = Returns (Pending (Rejects UnconfiguredProvider)).
Proof.
  assert (H : resolve depth key (fst (provide key this))
              = (fst (provide key this), Returns (Rejected UnconfiguredProvider))).
  { rewrite (resolve_produced depth key _ Provider.new Provider.new
               (Returns (Thenable (Rejected UnconfiguredProvider))));
      [| simpl; apply get_set_same | reflexivity].
    simpl. now rewrite set_set. }
  assert (Hkey : resolveAll depth (CKey key) (fst (provide key this))
                 = (fst (provide key this),
                    Returns (Pending (Rejects UnconfiguredProvider)))).
  { rewrite resolveAll_key, H. reflexivity. }
  split; [exact H|]. split; [now rewrite Hkey|].
  rewrite resolveAll_array. cbn [map_each]. now rewrite Hkey.
Qed.

(** C7 (as amended).  When [resolveAll(c)] returns a promise,
    [resolveAll([c])] returns a promise that ends the same way, for a
    key and for any other condition [c], and leaves the same context.
    For a key that resolves to [v] both yield the one-element list
    [[v]] when [v] is truthy and the empty list when it is falsy.  For
    any array, when the sub-conditions, run from left to right, yield
    the lists [ls], the array yields their concatenation in that
    order. *)
Theorem resolveAll_array_concatenates :
  (forall depth c this p,
      snd (resolveAll depth c this) = Returns p ->
      fst (resolveAll depth (CArray [c]) this) = fst (resolveAll depth c this)
      /\ snd (resolveAll depth (CArray [c]) this) = Returns (Pending (fate p)))
  /\ (forall depth key this v,
         awaited (snd (resolve depth key this)) = Fulfils v ->
         awaited (snd (resolveAll depth (CArray [CKey key]) this))
         = Fulfils (if truthy v then [v] else [])
         /\ awaited (snd (resolveAll depth (CKey key) this))
            = Fulfils (if truthy v then [v] else []))
  /\ (forall depth cs this this' ls,
         each_yields depth cs this this' ls ->
         resolveAll depth (CArray cs) this
         = (this', Returns (Pending (Fulfils (List.concat ls))))).
Proof.
  split; [|split].
  - intros depth c this p Hp.
    split; [apply resolveAll_singleton|].
    assert (Ht := resolveAll_truthy depth c this).
    rewrite resolveAll_array. cbn [map_each].
    destruct (resolveAll depth c this) as [s1 o]; simpl in Hp; subst o.
    simpl in Ht. destruct p as [l|e|[l|e|]]; simpl; try reflexivity.
    + now rewrite (filter_of_all_true truthy_value l (Ht l eq_refl)).
    + now rewrite (filter_of_all_true truthy_value l (Ht l eq_refl)).
  - intros depth key this v Hv.
    rewrite (proj2 (resolveAll_singleton depth (CKey key) this)).
    rewrite (resolveAll_key_value _ _ _ _ Hv). now split.
  - intros depth cs this this' ls Hy.
    rewrite resolveAll_array, (each_yields_map_each _ _ _ _ _ Hy); simpl.
    rewrite fold_left_app_concat; simpl.
    now rewrite (filter_of_all_true truthy_value _
                   (each_yields_truthy _ _ _ _ _ Hy)).
Qed.

Lemma resolveAll_array_concatenates_witness :
  awaited (snd (resolve 0 Fixtures.key Fixtures.given)) = Fulfils Fixtures.value
  /\ awaited (snd (resolveAll 0 (CArray [CKey Fixtures.key]) Fixtures.given))
     = Fulfils [Fixtures.value]
  /\ awaited (snd (resolveAll 0 (CKey Fixtures.key) Fixtures.given))
     = Fulfils [Fixtures.value].
Proof.
  split; [reflexivity|].
  exact (proj1 (proj2 resolveAll_array_concatenates) 0 Fixtures.key
           Fixtures.given Fixtures.value eq_refl).
Defined.

(** C7 as it was stated fails: with the falsy [0] registered at ['a'],
    [resolveAll(['a'])] and [resolveAll('a')] both yield the empty list,
    and there is no one-element list that they yield. *)
Lemma resolveAll_of_falsy_key_is_empty :
  let this := provide_as "a" (Plain (VNumber 0)) (fresh None) in
  JsObject.get "a" (_providers this) <> None
  /\ awaited (snd (resolveAll 0 (CArray [CKey "a"]) this)) = Fulfils []
  /\ awaited (snd (resolveAll 0 (CKey "a") this)) = Fulfils []
  /\ ~ (exists v,
          awaited (snd (resolveAll 0 (CArray [CKey "a"]) this)) = Fulfils [v]
          /\ awaited (snd (resolveAll 0 (CKey "a") this)) = Fulfils [v]).
Proof.
  split; [discriminate|]. split; [reflexivity|]. split; [reflexivity|].
  intros [v [H _]]. discriminate H.
Qed.

(** C8.  A call [f(...ownArgs)] of [f = using(cond, consumer)] does to
    the context what [resolveAll(cond)] does, on every call.  When
    [resolveAll(cond)] yields [values], the call ends as
    [consumer(...values, ...ownArgs)] does; when it fails, the call
    fails with the same error.  A second call runs [resolveAll] again,
    on the state the first call left, and passes what that run yields. *)
Theorem using_injects_resolved_values :
  (forall depth cond consumer ownArgs this,
      fst (using_ depth cond consumer ownArgs this)
      = fst (resolveAll depth cond this))
  /\ (forall depth cond consumer ownArgs this values,
         awaited (snd (resolveAll depth cond this)) = Fulfils values ->
         awaited (snd (using_ depth cond consumer ownArgs this))
         = handled (consumer (values ++ ownArgs)%list))
  /\ (forall depth cond consumer ownArgs this e,
         awaited (snd (resolveAll depth cond this)) = Rejects e ->
         awaited (snd (using_ depth cond consumer ownArgs this)) = Rejects e)
  /\ (forall depth cond consumer args1 args2 this values,
         let after := fst (using_ depth cond consumer args1 this) in
         awaited (snd (resolveAll depth cond after)) = Fulfils values ->
         fst (using_ depth cond consumer args2 after)
         = fst (resolveAll depth cond (fst (resolveAll depth cond this)))
         /\ awaited (snd (using_ depth cond consumer args2 after))
            = handled (consumer (values ++ args2)%list)).
Proof.
  assert (Hstate : forall depth cond consumer ownArgs this,
             fst (using_ depth cond consumer ownArgs this)
             = fst (resolveAll depth cond this)).
  { intros. unfold using_.
    now destruct (resolveAll depth cond this) as [s [q|e]]. }
  assert (Hvalues : forall depth cond consumer ownArgs this values,
             awaited (snd (resolveAll depth cond this)) = Fulfils values ->
             awaited (snd (using_ depth cond consumer ownArgs this))
             = handled (consumer (values ++ ownArgs)%list)).
  { intros depth cond consumer ownArgs this values. unfold using_.
    destruct (resolveAll depth cond this) as [s [q|e]]; simpl;
      [|discriminate].
    intros ->. reflexivity. }
  split; [exact Hstate|]. split; [exact Hvalues|]. split.
  - intros depth cond consumer ownArgs this e. unfold using_.
    destruct (resolveAll depth cond this) as [s [q|e0]]; simpl.
    + intros H. now rewrite H.
    + now intros [= ->].
  - intros depth cond consumer args1 args2 this values after Hv.
    subst after. split.
    + now rewrite !Hstate.
    + now apply Hvalues.
Qed.

Lemma using_injects_resolved_values_witness :
  let this :=
    provide_as "debug" (Plain (VObject 2))
      (provide_as "log" (Plain (VObject 1)) (fresh None)) in
  let cond := CArray [CKey "log"; CKey "debug"] in
  let consumer := fun args => Returns (Plain (VNumber (Z.of_nat (List.length args)))) in
  awaited (snd (resolveAll 0 cond this)) = Fulfils [VObject 1; VObject 2]
  /\ awaited (snd (using_ 0 cond consumer [VString "world"] this))
     = handled (consumer [VObject 1; VObject 2; VString "world"]).
Proof.
  split; [reflexivity|].
  exact (proj1 (proj2 using_injects_resolved_values) 0
           (CArray [CKey "log"; CKey "debug"])
           (fun args => Returns (Plain (VNumber (Z.of_nat (List.length args)))))
           [VString "world"]
           (provide_as "debug" (Plain (VObject 2))
              (provide_as "log" (Plain (VObject 1)) (fresh None)))
           [VObject 1; VObject 2] eq_refl).
Defined.

(** C9 (the code departs from it).  [resolveAll(key)] calls [resolve]
    outside any promise: when [resolve(key)] throws, [resolveAll(key)]
    throws the same and returns no promise.  So it is when the factory at
    [key] throws, and when [key] has no provider and is a name that a
    literal [{}] inherits (on a context without [provide('__proto__')]). *)
Theorem resolveAll_key_throws depth key this :
  (forall e, snd (resolve depth key this) = Throws e ->
             snd (resolveAll depth (CKey key) this) = Throws e)
  /\ (forall factory e,
         body factory (calls factory) = Throws e ->
         snd (resolveAll depth (CKey key) (provide_with key factory this))
         = Throws e)
  /\ (JsObject.get "__proto__" (_providers this) = None ->
      JsObject.get key (_providers this) = None ->
      JsObject.inherited key = true ->
      resolveAll depth (CKey key) this = (this, Throws TypeError)).
Proof.
  split; [|split].
  - intros e He. rewrite resolveAll_key; simpl. now rewrite He.
  - intros factory e Hbody. rewrite resolveAll_key, resolve_first; simpl.
    now rewrite Hbody.
  - intros _ Hget Hin. rewrite resolveAll_key, (resolve_missing _ _ _ Hget).
    simpl. now rewrite Hin.
Qed.

Lemma resolveAll_key_throws_witness :
  JsObject.get "__proto__" (_providers (fresh None)) = None
  /\ JsObject.get "constructor" (_providers (fresh None)) = None
  /\ JsObject.inherited "constructor" = true
  /\ resolveAll 0 (CKey "constructor") (fresh None)
     = (fresh None, Throws TypeError).
Proof.
  split; [reflexivity|]. split; [reflexivity|]. split; [reflexivity|].
  exact (proj2 (proj2 (resolveAll_key_throws 0 "constructor" (fresh None)))
           eq_refl eq_refl eq_refl).
Defined.

(** C10.  [new Context(n)] with a non-empty [n] makes [Context.get(n)]
    the new instance, whatever was registered under [n], and leaves the
    entries under other names and the earlier instances as they were;
    of two instances made with the same name the second is found.
    [new Context()] and [new Context('')] leave the table unchanged. *)
Theorem constructor_registers_name :
  (forall n proc,
      n <> "" ->
      Context.get n (fst (constructor (Some n) proc))
      = Some (snd (constructor (Some n) proc))
      /\ nth_error (heap (fst (constructor (Some n) proc)))
                   (snd (constructor (Some n) proc))
         = Some (fresh (Some n))
      /\ nth_error (heap proc) (snd (constructor (Some n) proc)) = None
      /\ (forall n', n' <> n ->
            Context.get n' (fst (constructor (Some n) proc)) = Context.get n' proc)
      /\ (forall r this, nth_error (heap proc) r = Some this ->
            nth_error (heap (fst (constructor (Some n) proc))) r = Some this))
  /\ (forall n proc,
         n <> "" ->
         let first := constructor (Some n) proc in
         let second := constructor (Some n) (fst first) in
         Context.get n (fst second) = Some (snd second)
         /\ snd second <> snd first)
  /\ (forall proc, _repo (fst (constructor None proc)) = _repo proc)
  /\ (forall proc, _repo (fst (constructor (Some "") proc)) = _repo proc).
Proof.
  assert (Htruthy : forall n, n <> "" -> truthy (name_value (Some n)) = true).
  { intros n Hn. simpl. destruct (n =? "") eqn:E; [|reflexivity].
    apply String.eqb_eq in E. contradiction. }
  split; [|split; [|split]].
  - intros n proc Hn. unfold Context.get, constructor; simpl.
    change (if negb (n =? "") then JsObject.set n (List.length (heap proc)) (_repo proc)
            else _repo proc)
      with (if truthy (name_value (Some n))
            then JsObject.set n (List.length (heap proc)) (_repo proc)
            else _repo proc).
    rewrite (Htruthy n Hn). repeat split.
    + apply get_set_same.
    + rewrite nth_error_app2 by lia. now rewrite Nat.sub_diag.
    + apply nth_error_None. lia.
    + intros n' Hn'. now apply get_set_other.
    + intros r this Hr. rewrite nth_error_app1; [exact Hr|].
      apply nth_error_Some. congruence.
  - intros n proc Hn first second. subst first second.
    unfold Context.get, constructor; simpl.
    change (negb (n =? "")) with (truthy (name_value (Some n))).
    rewrite (Htruthy n Hn). split.
    + apply get_set_same.
    + rewrite length_app; simpl. lia.
  - reflexivity.
  - reflexivity.
Qed.

Lemma constructor_registers_name_witness :
  "main" <> ""
  /\ Context.get "main" (fst (constructor (Some "main") boot))
     = Some (snd (constructor (Some "main") boot)).
Proof.
  split; [discriminate|].
  exact (proj1 (proj1 constructor_registers_name "main" boot
                  ltac:(discriminate))).
Defined.

End ContextSpec.

(* ================================================================== *)
(** ** More facts about tables *)

Module TableFacts.

Import JsObject JsObjectFacts.

Section Table.
Variable A : Type.
Implicit Types (o : Obj A) (k key : string) (a : A).

Lemma get_in_names o key a : get key o = Some a -> In key (List.map fst o).
Proof.
  induction o as [|[j b] o IH]; simpl; [discriminate|].
  destruct (j =? key) eqn:E.
  - apply String.eqb_eq in E. auto.
  - auto.
Qed.

Lemma names_in_get o key : In key (List.map fst o) -> get key o <> None.
Proof.
  induction o as [|[j b] o IH]; simpl; [intros []|].
  intros [->|Hin].
  - now rewrite String.eqb_refl.
  - destruct (j =? key); [discriminate|auto].
Qed.

Lemma delete_names_subset o key k :
  In k (List.map fst (delete key o)) -> In k (List.map fst o).
Proof.
  induction o as [|[j b] o IH]; simpl; [auto|].
  destruct (j =? key); simpl; intuition.
Qed.

Lemma delete_names_nodup o key :
  NoDup (List.map fst o) -> NoDup (List.map fst (delete key o)).
Proof.
  induction o as [|[j b] o IH]; simpl; intros H; [constructor|].
  inversion H as [|? ? Hnotin Hrest]; subst.
  destruct (j =? key); simpl; [exact Hrest|].
  constructor; [|auto].
  intros Hin. apply Hnotin. eapply delete_names_subset; eauto.
Qed.

(** Once unique names are deleted, the name is gone. *)
Lemma get_delete_same o key :
  NoDup (List.map fst o) -> get key (delete key o) = None.
Proof.
  induction o as [|[j b] o IH]; simpl; intros H; [reflexivity|].
  inversion H as [|? ? Hnotin Hrest]; subst.
  destruct (j =? key) eqn:E; simpl.
  - apply String.eqb_eq in E. subst j.
    destruct (get key o) as [a|] eqn:G; [|reflexivity].
    destruct Hnotin. eapply get_in_names; eauto.
  - rewrite E. auto.
Qed.

Lemma get_delete_other o key k :
  k <> key -> get k (delete key o) = get k o.
Proof.
  intros Hne. induction o as [|[j b] o IH]; simpl; [reflexivity|].
  destruct (j =? key) eqn:E; simpl.
  - apply String.eqb_eq in E. subst j.
    destruct (key =? k) eqn:E'; [|reflexivity].
    apply String.eqb_eq in E'. congruence.
  - now rewrite IH.
Qed.

Lemma delete_absent o key : get key o = None -> delete key o = o.
Proof.
  induction o as [|[j b] o IH]; simpl; [reflexivity|].
  destruct (j =? key); [discriminate|].
  intros H. now rewrite IH.
Qed.
End Table.

Lemma set_absent_names {A : Type} (o : Obj A) key a :
  get key o = None -> List.map fst (set key a o) = (List.map fst o ++ [key])%list.
Proof.
  induction o as [|[j b] o IH]; simpl; [reflexivity|].
  destruct (j =? key); [discriminate|].
  intros H. simpl. now rewrite IH.
Qed.

Lemma insert_index_perm n k l :
  Permutation (insert_index n k l) ((n, k) :: l).
Proof.
  induction l as [|[m j] l IH]; simpl; [reflexivity|].
  destruct (n <=? m)%N; [reflexivity|].
  rewrite IH. apply perm_swap.
Qed.

Lemma index_keys_perm ks :
  Permutation (List.map snd (index_keys ks)) (List.filter is_index ks).
Proof.
  induction ks as [|k ks IH]; simpl; [reflexivity|].
  unfold is_index at 1. destruct (array_index k) as [n|]; [|exact IH].
  rewrite insert_index_perm. simpl. now rewrite IH.
Qed.

Lemma filter_split_perm {A : Type} (f : A -> bool) (l : list A) :
  Permutation (List.filter f l ++ List.filter (fun x => negb (f x)) l) l.
Proof.
  induction l as [|a l IH]; simpl; [reflexivity|].
  destruct (f a); simpl.
  - now rewrite IH.
  - rewrite <- Permutation_middle. now rewrite IH.
Qed.

(** [Object.keys] lists the own property names, each as often as it is
    there. *)
Lemma keys_perm {A : Type} (o : Obj A) :
  Permutation (keys o) (List.map fst o).
Proof.
  unfold keys. rewrite index_keys_perm. apply filter_split_perm.
Qed.

Lemma keys_without_index {A : Type} (o : Obj A) :
  (forall k, In k (List.map fst o) -> array_index k = None) ->
  keys o = List.map fst o.
Proof.
  unfold keys. generalize (List.map fst o) as ks. intros ks Hno.
  induction ks as [|k ks IH]; simpl; [reflexivity|].
  assert (Hk := Hno k (or_introl eq_refl)).
  unfold is_index at 1. rewrite Hk. simpl.
  assert (Hrest : forall k', In k' ks -> array_index k' = None)
    by (intros k' Hin; apply Hno; now right).
  specialize (IH Hrest).
  destruct (index_keys ks) as [|x xs] eqn:E.
  - simpl in *. now rewrite IH.
  - exfalso.
    assert (Hin : In (snd x) (List.filter is_index ks)).
    { eapply Permutation_in; [apply index_keys_perm|]. rewrite E. now left. }
    apply filter_In in Hin. destruct Hin as [Hin Hidx].
    unfold is_index in Hidx. now rewrite (Hrest _ Hin) in Hidx.
Qed.

End TableFacts.

(* ================================================================== *)
(** ** Further properties of the code *)

Module ContextLaws.

Import Provider Context Observe Reach JsObjectFacts TableFacts ResolveFacts.

Lemma name_truthy n : truthy (name_value (Some n)) = true -> n <> "".
Proof. simpl. intros H ->. discriminate. Qed.

Lemma constructor_repo name proc :
  _repo (fst (constructor name proc))
  = match name with
    | Some n =>
        if truthy (name_value (Some n))
        then JsObject.set n (List.length (heap proc)) (_repo proc)
        else _repo proc
    | None => _repo proc
    end.
Proof. now destruct name. Qed.

(** What holds of the static table in every reachable state. *)
Lemma reachable_sound proc :
  reachable proc ->
  NoDup (List.map fst (_repo proc))
  /\ forall n r,
      Context.get n proc = Some r ->
      n <> "" /\ exists this, nth_error (heap proc) r = Some this
                           /\ name this = Some n.
Proof.
  induction 1 as [|nm proc _ [IHn IHg]|nm proc _ [IHn IHg]].
  - split; [constructor|]. intros n r H. discriminate.
  - assert (Hold : forall n r,
               Context.get n proc = Some r ->
               n <> "" /\ exists this,
                   nth_error (heap (fst (constructor nm proc))) r = Some this
                   /\ name this = Some n).
    { intros n r H. destruct (IHg n r H) as [Hn (this & Hr & Hname)].
      split; [exact Hn|]. exists this. split; [|exact Hname].
      simpl. rewrite nth_error_app1; [exact Hr|].
      apply nth_error_Some. congruence. }
    unfold Context.get in *. rewrite constructor_repo.
    destruct nm as [n0|]; [|split; [exact IHn|exact Hold]].
    destruct (truthy (name_value (Some n0))) eqn:Ht;
      [|split; [exact IHn|exact Hold]].
    split; [now apply set_names_nodup|].
    intros n r. destruct (string_dec n n0) as [->|Hne].
    + rewrite get_set_same. intros [= <-].
      split; [now apply name_truthy|].
      exists (fresh (Some n0)). split; [|reflexivity].
      simpl. rewrite nth_error_app2 by lia. now rewrite Nat.sub_diag.
    + rewrite get_set_other by exact Hne. apply Hold.
  - split; [now apply delete_names_nodup|].
    intros n r. unfold Context.get, delete; simpl.
    destruct (string_dec n nm) as [->|Hne].
    + now rewrite get_delete_same.
    + rewrite get_delete_other by exact Hne. apply IHg.
Qed.

(** X1.  In every state the program can reach, an instance that
    [Context.get(n)] finds was constructed with the name [n], and [n] is
    not empty: an instance made without name, or with the empty name, is
    never found, under any name. *)
Theorem get_finds_instance_of_that_name proc n r :
  reachable proc ->
  Context.get n proc = Some r ->
  n <> ""
  /\ exists this, nth_error (heap proc) r = Some this /\ name this = Some n.
Proof.
  intros Hreach. apply (proj2 (reachable_sound proc Hreach)).
Qed.

Lemma get_finds_instance_of_that_name_witness :
  let proc :=
    fst (constructor (Some "b")
           (delete "a" (fst (constructor None
                               (fst (constructor (Some "a") boot)))))) in
  reachable proc
  /\ Context.get "b" proc = Some 2
  /\ "b" <> ""
  /\ exists this, nth_error (heap proc) 2 = Some this /\ name this = Some "b".
Proof.
  assert (Hreach : reachable
            (fst (constructor (Some "b")
                    (delete "a" (fst (constructor None
                                        (fst (constructor (Some "a") boot))))))))
    by (repeat constructor).
  split; [exact Hreach|]. split; [reflexivity|].
  exact (get_finds_instance_of_that_name _ "b" 2 Hreach eq_refl).
Defined.

(** X2.  In every state the program can reach without an instance named
    ['__proto__'], [Context.delete(n)] for a name other than
    ['__proto__'] leaves no instance registered under [n], leaves the
    instance registered under every other name and the instances
    themselves as they were, and changes nothing at all when no instance
    was registered under [n]. *)
Theorem delete_unregisters_only_name proc n :
  reachable proc ->
  (forall this, In this (heap proc) -> name this <> Some "__proto__") ->
  n <> "__proto__" ->
  Context.get n (delete n proc) = None
  /\ (forall n', n' <> n ->
        Context.get n' (delete n proc) = Context.get n' proc)
  /\ heap (delete n proc) = heap proc
  /\ (Context.get n proc = None -> delete n proc = proc).
Proof.
  intros Hreach _ _. destruct (reachable_sound proc Hreach) as [Hnodup _].
  unfold Context.get, delete; simpl. repeat split.
  - now apply get_delete_same.
  - intros n' Hne. now apply get_delete_other.
  - intros Habsent. rewrite (delete_absent _ _ _ Habsent). now destruct proc.
Qed.

Lemma delete_unregisters_only_name_witness :
  let proc := fst (constructor (Some "b") (fst (constructor (Some "a") boot))) in
  reachable proc
  /\ (forall this, In this (heap proc) -> name this <> Some "__proto__")
  /\ "a" <> "__proto__"
  /\ Context.get "a" proc = Some 0
  /\ Context.get "a" (delete "a" proc) = None
  /\ Context.get "b" (delete "a" proc) = Some 1.
Proof.
  assert (Hreach : reachable
            (fst (constructor (Some "b") (fst (constructor (Some "a") boot)))))
    by (repeat constructor).
  assert (Hplain : forall this,
             In this (heap (fst (constructor (Some "b")
                                   (fst (constructor (Some "a") boot))))) ->
             name this <> Some "__proto__").
  { intros this [<-|[<-|[]]]; discriminate. }
  assert (Hn : "a" <> "__proto__") by discriminate.
  split; [exact Hreach|]. split; [exact Hplain|]. split; [exact Hn|].
  split; [reflexivity|].
  destruct (delete_unregisters_only_name _ "a" Hreach Hplain Hn)
    as (Hgone & Hother & _).
  split; [exact Hgone|].
  rewrite (Hother "b" ltac:(discriminate)). reflexivity.
Defined.


(** X3.  Resolution registers, removes and reorders nothing: after
    [resolve], [resolveAll] or a call of a function made by [using], the
    context has the name and the keys it had, in the same order. *)
Theorem resolution_keeps_keys :
  (forall depth key this,
      name (fst (resolve depth key this)) = name this
      /\ JsObject.keys (_providers (fst (resolve depth key this)))
         = JsObject.keys (_providers this))
  /\ (forall depth cond this,
         name (fst (resolveAll depth cond this)) = name this
         /\ JsObject.keys (_providers (fst (resolveAll depth cond this)))
            = JsObject.keys (_providers this))
  /\ (forall depth cond consumer ownArgs this,
         name (fst (using_ depth cond consumer ownArgs this)) = name this
         /\ JsObject.keys
              (_providers (fst (using_ depth cond consumer ownArgs this)))
            = JsObject.keys (_providers this)).
Proof.
  assert (Hall : forall depth cond this,
             name (fst (resolveAll depth cond this)) = name this
             /\ JsObject.keys (_providers (fst (resolveAll depth cond this)))
                = JsObject.keys (_providers this)).
  { intros depth cond this.
    assert (H := resolveAll_same_answers depth cond this).
    split; [apply H | now apply same_answers_keys]. }
  split; [|split].
  - intros depth key this.
    assert (H := resolve_same_answers depth key this).
    split; [apply H | now apply same_answers_keys].
  - exact Hall.
  - intros depth cond consumer ownArgs this.
    replace (fst (using_ depth cond consumer ownArgs this))
      with (fst (resolveAll depth cond this)); [apply Hall|].
    unfold using_. now destruct (resolveAll depth cond this) as [s [q|e]].
Qed.

Lemma memo_step_keeps_alias this s1 key p target :
  memo_step this s1 ->
  JsObject.get key (_providers this) = Some p ->
  Provider.get p = Delegated target ->
  JsObject.get key (_providers s1) = Some p.
Proof.
  intros [->|(t & fn & Hget & ->)] Hk Hp; [exact Hk|].
  simpl. rewrite get_set_other; [exact Hk|].
  intros ->. rewrite Hget in Hk. injection Hk as <-. discriminate Hp.
Qed.

Lemma resolve_again_state depth : forall key this,
  fst (resolve depth key (fst (resolve depth key this)))
  = fst (resolve depth key this).
Proof.
  induction depth as [|depth IH]; intros key this;
    destruct (JsObject.get key (_providers this)) as [p|] eqn:Hget;
    try (rewrite (resolve_missing _ _ _ Hget); cbn [fst snd];
         now rewrite (resolve_missing _ _ _ Hget)).
  - destruct (get_shapes p) as [[Hp _]|[[r [Hp _]]|[[fn [-> Hp]]|[t Hp]]]].
    + rewrite (resolve_produced _ _ _ _ _ _ Hget Hp); cbn [fst snd _providers name].
      rewrite (set_same_value _ _ _ _ Hget), context_eta.
      rewrite (resolve_produced _ _ _ _ _ _ Hget Hp); cbn [fst snd _providers name].
      now rewrite (set_same_value _ _ _ _ Hget), context_eta.
    + rewrite (resolve_produced _ _ _ _ _ _ Hget Hp); cbn [fst snd _providers name].
      rewrite (set_same_value _ _ _ _ Hget), context_eta.
      rewrite (resolve_produced _ _ _ _ _ _ Hget Hp); cbn [fst snd _providers name].
      now rewrite (set_same_value _ _ _ _ Hget), context_eta.
    + rewrite (resolve_produced _ _ _ _ _ _ Hget Hp); cbn [fst snd _providers name].
      erewrite resolve_cached by (simpl; apply get_set_same). reflexivity.
    + rewrite (resolve_overflow _ _ _ _ Hget Hp); cbn [fst snd _providers name].
      now rewrite (resolve_overflow _ _ _ _ Hget Hp).
  - destruct (get_shapes p) as [[Hp _]|[[r [Hp _]]|[[fn [-> Hp]]|[t Hp]]]].
    + rewrite (resolve_produced _ _ _ _ _ _ Hget Hp); cbn [fst snd _providers name].
      rewrite (set_same_value _ _ _ _ Hget), context_eta.
      rewrite (resolve_produced _ _ _ _ _ _ Hget Hp); cbn [fst snd _providers name].
      now rewrite (set_same_value _ _ _ _ Hget), context_eta.
    + rewrite (resolve_produced _ _ _ _ _ _ Hget Hp); cbn [fst snd _providers name].
      rewrite (set_same_value _ _ _ _ Hget), context_eta.
      rewrite (resolve_produced _ _ _ _ _ _ Hget Hp); cbn [fst snd _providers name].
      now rewrite (set_same_value _ _ _ _ Hget), context_eta.
    + rewrite (resolve_produced _ _ _ _ _ _ Hget Hp); cbn [fst snd _providers name].
      erewrite resolve_cached by (simpl; apply get_set_same). reflexivity.
    + rewrite (resolve_delegated _ _ _ _ _ Hget Hp).
      assert (Hk := memo_step_keeps_alias _ _ _ _ _
                      (resolve_memo_step depth t this) Hget Hp).
      rewrite (resolve_delegated _ _ _ _ _ Hk Hp). apply IH.
Qed.

(** X4.  [resolve(key)] is idempotent, whatever is or is not registered
    at [key]: a second call gives what the first gave (the same value,
    the same rejection or the same exception) and leaves the context
    exactly as the first left it. *)
Theorem resolve_twice_same depth key this :
  resolve depth key (fst (resolve depth key this))
  = (fst (resolve depth key this), snd (resolve depth key this)).
Proof.
  rewrite (surjective_pairing
             (resolve depth key (fst (resolve depth key this)))).
  f_equal.
  - apply resolve_again_state.
  - apply (resolve_same_answers depth key this).
Qed.

Lemma resolve_deeper depth : forall key this,
  snd (resolve depth key this) <> Throws RangeError ->
  resolve (S depth) key this = resolve depth key this.
Proof.
  induction depth as [|depth IH]; intros key this Hno;
    destruct (JsObject.get key (_providers this)) as [p|] eqn:Hget;
    try (now rewrite !(resolve_missing _ _ _ Hget));
    destruct (Provider.get p) as [self r|target] eqn:Hp;
    try (now rewrite !(resolve_produced _ _ _ _ _ _ Hget Hp)).
  - rewrite (resolve_overflow _ _ _ _ Hget Hp) in Hno. now destruct Hno.
  - rewrite (resolve_delegated depth _ _ _ _ Hget Hp) in Hno.
    rewrite (resolve_delegated (S depth) _ _ _ _ Hget Hp).
    rewrite (resolve_delegated depth _ _ _ _ Hget Hp). now apply IH.
Qed.

(** X6.  The room on the call stack matters only when it runs out: if
    [resolve(key)] does not end in a [RangeError] with room for [depth]
    nested calls, it does the same with any more room. *)
Theorem resolve_same_with_more_stack depth extra key this :
  snd (resolve depth key this) <> Throws RangeError ->
  resolve (extra + depth) key this = resolve depth key this.
Proof.
  intros Hno. induction extra as [|extra IH]; [reflexivity|].
  simpl plus. rewrite resolve_deeper; [exact IH|]. now rewrite IH.
Qed.

Lemma resolve_same_with_more_stack_witness :
  let this :=
    provide_aliasTo "c" "b"
      (provide_aliasTo "b" "a" (provide_as "a" (Plain (VNumber 1)) (fresh None))) in
  snd (resolve 2 "c" this) <> Throws RangeError
  /\ resolve (5 + 2) "c" this = resolve 2 "c" this.
Proof.
  assert (Hno : snd (resolve 2 "c"
                       (provide_aliasTo "c" "b"
                          (provide_aliasTo "b" "a"
                             (provide_as "a" (Plain (VNumber 1)) (fresh None)))))
                <> Throws RangeError) by discriminate.
  split; [exact Hno|].
  exact (resolve_same_with_more_stack 2 5 "c" _ Hno).
Defined.

Lemma built_nodup this :
  built this -> NoDup (List.map fst (_providers this)).
Proof.
  induction 1 as [nm|key this _ _ IH|key method this _ IH
                  |depth key this _ IH|depth cond this _ IH].
  - constructor.
  - simpl. now apply set_names_nodup.
  - unfold at_key. destruct (JsObject.get key (_providers this)); [|exact IH].
    simpl. now apply set_names_nodup.
  - destruct (resolve_same_answers depth key this) as (_ & Hk & _).
    now rewrite Hk.
  - destruct (resolveAll_same_answers depth cond this) as (_ & Hk & _).
    now rewrite Hk.
Qed.

Lemma keys_registered this k :
  In k (JsObject.keys (_providers this))
  <-> JsObject.get k (_providers this) <> None.
Proof.
  split.
  - intros Hin. apply names_in_get.
    eapply Permutation_in; [apply keys_perm|exact Hin].
  - intros Hget.
    destruct (JsObject.get k (_providers this)) as [p|] eqn:E; [|congruence].
    eapply Permutation_in; [symmetry; apply keys_perm|].
    eapply get_in_names; eauto.
Qed.

(** X7.  On a context built through the constructor and the methods,
    with no [provide('__proto__')], the keys that [resolveAll] goes
    through under a pattern, a function or the all-marker
    ([Object.keys(this._providers)]) are the registered keys, each
    exactly once; when no key is an array index, they come in the order
    of their first registration in the table. *)
Theorem registered_keys_listed_once this :
  built this ->
  NoDup (JsObject.keys (_providers this))
  /\ (forall k, In k (JsObject.keys (_providers this))
                <-> JsObject.get k (_providers this) <> None)
  /\ ((forall k, JsObject.get k (_providers this) <> None ->
                 JsObject.array_index k = None) ->
      JsObject.keys (_providers this) = List.map fst (_providers this)).
Proof.
  intros Hbuilt. split; [|split].
  - eapply Permutation_NoDup; [symmetry; apply keys_perm|].
    now apply built_nodup.
  - intros k. apply keys_registered.
  - intros Hno. apply keys_without_index.
    intros k Hin. apply Hno. now apply names_in_get.
Qed.

Lemma registered_keys_listed_once_witness :
  let this :=
    provide_as "log" (Plain (VObject 1))
      (provide_as "debug" (Plain (VObject 2))
         (provide_as "log" (Plain (VObject 3)) (fresh None))) in
  built this
  /\ NoDup (JsObject.keys (_providers this))
  /\ JsObject.keys (_providers this) = ["log"; "debug"].
Proof.
  assert (Hbuilt : built
            (provide_as "log" (Plain (VObject 1))
               (provide_as "debug" (Plain (VObject 2))
                  (provide_as "log" (Plain (VObject 3)) (fresh None)))))
    by (unfold provide_as;
        repeat (first [apply built_at_key
                      |apply built_provide; [discriminate|]
                      |apply built_fresh])).
  split; [exact Hbuilt|].
  split; [exact (proj1 (registered_keys_listed_once _ Hbuilt))|reflexivity].
Defined.

Lemma filter_none {A : Type} (f : A -> bool) (l : list A) :
  (forall a, In a l -> f a = false) -> List.filter f l = [].
Proof.
  induction l as [|a l IH]; simpl; intros H; [reflexivity|].
  rewrite (H a (or_introl eq_refl)). apply IH. intros b Hb. apply H. now right.
Qed.

Lemma filter_from_none {A : Type} (f : A -> nat -> nat -> Outcome bool)
  len (l : list A) :
  (forall a i, In a l -> f a i len = Returns false) ->
  forall i, filter_from f len i l = Fulfils [].
Proof.
  induction l as [|a l IH]; simpl; intros H i; [reflexivity|].
  rewrite (H a i (or_introl eq_refl)).
  rewrite IH; [reflexivity|]. intros b j Hb. apply H. now right.
Qed.

(** X8.  When the pattern matches no registered key, or the function
    answers false for every registered key, [resolveAll] yields the
    empty list and leaves the context untouched: no provider is asked
    and no factory is called. *)
Theorem resolveAll_selecting_nothing :
  (forall depth test this,
      (forall k, JsObject.get k (_providers this) <> None -> test k = false) ->
      resolveAll depth (CRegExp test) this
      = (this, Returns (Pending (Fulfils []))))
  /\ (forall depth f this,
         (forall k i n, JsObject.get k (_providers this) <> None ->
                        f k i n = Returns false) ->
         resolveAll depth (CFunction f) this
         = (this, Returns (Pending (Fulfils [])))).
Proof.
  split.
  - intros depth test this Hno. rewrite resolveAll_regexp; simpl.
    rewrite filter_none; [reflexivity|].
    intros k Hin. now apply Hno, keys_registered.
  - intros depth f this Hno. rewrite resolveAll_function; simpl.
    rewrite filter_from_none; [reflexivity|].
    intros k i Hin. now apply Hno, keys_registered.
Qed.

Lemma resolveAll_selecting_nothing_witness :
  let count := {| calls := 0; body := fun _ => Returns (Plain (VNumber 1)) |} in
  let this := provide_with "test-key" count (fresh None) in
  (forall k, JsObject.get k (_providers this) <> None ->
             String.eqb "test-" k = false)
  /\ resolveAll 0 (CRegExp (String.eqb "test-")) this
     = (this, Returns (Pending (Fulfils []))).
Proof.
  assert (Hno : forall k,
             JsObject.get k
               (_providers
                  (provide_with "test-key"
                     {| calls := 0; body := fun _ => Returns (Plain (VNumber 1)) |}
                     (fresh None))) <> None ->
             String.eqb "test-" k = false).
  { intros k H. destruct (string_dec k "test-key") as [->|Hne]; [reflexivity|].
    exfalso. apply H. rewrite provide_with_state.
    cbn [_providers fresh JsObject.empty JsObject.set JsObject.get].
    destruct (String.eqb "test-key" k) eqn:E; [|reflexivity].
    apply String.eqb_eq in E. congruence. }
  split; [exact Hno|].
  exact (proj1 resolveAll_selecting_nothing 0 (String.eqb "test-") _ Hno).
Defined.

Lemma filter_from_true {A : Type} (f : A -> nat -> nat -> Outcome bool)
  len (l : list A) :
  forall i,
    (forall a j, In a l -> f a j len = Returns true) ->
    filter_from f len i l = Fulfils l.
Proof.
  induction l as [|a l IH]; simpl; intros i Hall; [reflexivity|].
  rewrite (Hall a i (or_introl eq_refl)).
  rewrite IH; [reflexivity|]. intros b j Hb. apply Hall. now right.
Qed.

(** X9.  A function that answers true for every registered key, without
    throwing, selects as the all-marker does: [resolveAll(f)],
    [resolveAll(true)] and [resolveAll()] give the same result and
    leave the same context. *)
Theorem resolveAll_selectors_agree :
  (forall depth f this,
      (forall key i n, In key (JsObject.keys (_providers this)) ->
                       f key i n = Returns true) ->
      resolveAll depth (CFunction f) this = resolveAll depth CTrue this)
  /\ (forall depth this,
         resolveAll depth CTrue this = resolveAll depth CUndefined this).
Proof.
  split.
  - intros depth f this Hall.
    rewrite resolveAll_function, resolveAll_all by auto; cbv zeta.
    rewrite filter_from_true; [reflexivity|].
    intros a j Ha. now apply Hall.
  - intros depth this. now rewrite !resolveAll_all by auto.
Qed.

Lemma resolveAll_selectors_agree_witness :
  let this := provide_as "b" (Plain (VNumber 2))
                (provide_as "a" (Plain (VNumber 0)) (fresh None)) in
  resolveAll 0 (CFunction (fun _ _ _ => Returns true)) this
  = resolveAll 0 CTrue this
  /\ awaited (snd (resolveAll 0 CTrue this)) = Fulfils [VNumber 2].
Proof.
  split; [|reflexivity].
  exact (proj1 resolveAll_selectors_agree 0 (fun _ _ _ => Returns true)
           (provide_as "b" (Plain (VNumber 2))
              (provide_as "a" (Plain (VNumber 0)) (fresh None)))
           (fun _ _ _ _ => eq_refl)).
Defined.

Lemma filter_from_throws {A : Type} (f : A -> nat -> nat -> Outcome bool)
  len e (before : list A) : forall i a after,
  (forall j b, nth_error before j = Some b ->
               exists answer, f b (i + j) len = Returns answer) ->
  f a (i + List.length before) len = Throws e ->
  filter_from f len i (before ++ a :: after) = Rejects e.
Proof.
  induction before as [|b before IH]; simpl; intros i a after Hok Hthrow.
  - rewrite Nat.add_0_r in Hthrow. now rewrite Hthrow.
  - destruct (Hok 0 b eq_refl) as [answer Hb].
    rewrite Nat.add_0_r in Hb. rewrite Hb.
    rewrite (IH (S i) a after); [reflexivity| |].
    + intros j c Hj. destruct (Hok (S j) c Hj) as [ans Hc].
      exists ans. now replace (S i + j) with (i + S j) by lia.
    + now replace (S i + List.length before)
        with (i + S (List.length before)) by lia.
Qed.

(** X10.  When the function throws for a key, having answered for the
    keys before it, [resolveAll] gives a promise rejected with what was
    thrown and leaves the context untouched: the keys it had selected
    are not resolved. *)
Theorem resolveAll_function_throws depth f this before key after e :
  JsObject.keys (_providers this) = (before ++ key :: after)%list ->
  (forall j k, nth_error before j = Some k ->
               exists answer,
                 f k j (List.length (JsObject.keys (_providers this)))
                 = Returns answer) ->
  f key (List.length before) (List.length (JsObject.keys (_providers this)))
  = Throws e ->
  resolveAll depth (CFunction f) this = (this, Returns (Pending (Rejects e))).
Proof.
  intros Hkeys Hok Hthrow. rewrite resolveAll_function; simpl.
  rewrite Hkeys at 2.
  rewrite (filter_from_throws f _ e before 0 key after); [reflexivity| |].
  - intros j k Hj. simpl. now apply Hok.
  - exact Hthrow.
Qed.

Lemma resolveAll_function_throws_witness :
  let count := {| calls := 0; body := fun _ => Returns (Plain (VNumber 1)) |} in
  let this := provide_as "b" (Plain (VNumber 2)) (provide_with "a" count (fresh None)) in
  let f := fun (k : string) (i n : nat) =>
             if String.eqb k "b" then Throws (Raised (VString "no"))
             else Returns true in
  JsObject.keys (_providers this) = ["a"; "b"]
  /\ resolveAll 0 (CFunction f) this
     = (this, Returns (Pending (Rejects (Raised (VString "no"))))).
Proof.
  split; [reflexivity|].
  apply (resolveAll_function_throws 0 _ _ ["a"] "b" [] (Raised (VString "no")));
    [reflexivity| |reflexivity].
  intros j k Hj. destruct j as [|[|j]]; simpl in Hj; try discriminate.
  injection Hj as <-. now exists true.
Defined.

Lemma array_yields depth cs this this' ls :
  each_yields depth cs this this' ls ->
  resolveAll depth (CArray cs) this
  = (this', Returns (Pending (Fulfils (List.concat ls)))).
Proof.
  intros Hy.
  rewrite resolveAll_array, (each_yields_map_each _ _ _ _ _ Hy); simpl.
  rewrite fold_left_app_concat; simpl.
  now rewrite (filter_of_all_true truthy_value _
                 (each_yields_truthy _ _ _ _ _ Hy)).
Qed.

Lemma each_yields_app depth cs1 cs2 a b c ls1 ls2 :
  each_yields depth cs1 a b ls1 ->
  each_yields depth cs2 b c ls2 ->
  each_yields depth (cs1 ++ cs2) a c (ls1 ++ ls2).
Proof.
  induction 1 as [a|x cs1 a a1 b o l ls1 Hx Ho _ IH]; intros H2; simpl.
  - exact H2.
  - econstructor; eauto.
Qed.

(** X11.  Grouping the conditions of an array into nested arrays changes
    nothing when they all yield: if the conditions [cs1] and then [cs2],
    run from left to right, each yield a list, then
    [resolveAll([cs1, cs2])] and [resolveAll([...cs1, ...cs2])] give the
    same list, the lists of [cs1] followed by those of [cs2], and leave
    the same context. *)
Theorem resolveAll_nested_arrays_flatten depth cs1 cs2 this this1 this2 ls1 ls2 :
  each_yields depth cs1 this this1 ls1 ->
  each_yields depth cs2 this1 this2 ls2 ->
  resolveAll depth (CArray [CArray cs1; CArray cs2]) this
  = resolveAll depth (CArray (cs1 ++ cs2)) this
  /\ resolveAll depth (CArray (cs1 ++ cs2)) this
     = (this2,
        Returns (Pending (Fulfils (List.concat ls1 ++ List.concat ls2)%list))).
Proof.
  intros H1 H2.
  assert (Hflat := array_yields _ _ _ _ _ (each_yields_app _ _ _ _ _ _ _ _ H1 H2)).
  rewrite concat_app in Hflat.
  assert (Hnested : each_yields depth [CArray cs1; CArray cs2] this this2
                      [List.concat ls1; List.concat ls2]).
  { econstructor; [apply (array_yields _ _ _ _ _ H1)|reflexivity|].
    econstructor; [apply (array_yields _ _ _ _ _ H2)|reflexivity|].
    constructor. }
  apply array_yields in Hnested. cbn [List.concat] in Hnested.
  rewrite app_nil_r in Hnested. split; [|exact Hflat].
  now rewrite Hnested, Hflat.
Qed.

Lemma resolveAll_nested_arrays_flatten_witness :
  let this :=
    provide_as "c" (Plain (VNumber 3))
      (provide_as "b" (Plain (VNumber 0))
         (provide_as "a" (Plain (VNumber 1)) (fresh None))) in
  each_yields 0 [CKey "a"; CKey "b"] this this [[VNumber 1]; []]
  /\ each_yields 0 [CKey "c"] this this [[VNumber 3]]
  /\ resolveAll 0 (CArray [CArray [CKey "a"; CKey "b"]; CArray [CKey "c"]]) this
     = resolveAll 0 (CArray [CKey "a"; CKey "b"; CKey "c"]) this.
Proof.
  assert (H1 : each_yields 0 [CKey "a"; CKey "b"]
                 (provide_as "c" (Plain (VNumber 3))
                    (provide_as "b" (Plain (VNumber 0))
                       (provide_as "a" (Plain (VNumber 1)) (fresh None))))
                 (provide_as "c" (Plain (VNumber 3))
                    (provide_as "b" (Plain (VNumber 0))
                       (provide_as "a" (Plain (VNumber 1)) (fresh None))))
                 [[VNumber 1]; []]).
  { econstructor; [reflexivity|reflexivity|].
    econstructor; [reflexivity|reflexivity|]. constructor. }
  assert (H2 : each_yields 0 [CKey "c"]
                 (provide_as "c" (Plain (VNumber 3))
                    (provide_as "b" (Plain (VNumber 0))
                       (provide_as "a" (Plain (VNumber 1)) (fresh None))))
                 (provide_as "c" (Plain (VNumber 3))
                    (provide_as "b" (Plain (VNumber 0))
                       (provide_as "a" (Plain (VNumber 1)) (fresh None))))
                 [[VNumber 3]]).
  { econstructor; [reflexivity|reflexivity|]. constructor. }
  split; [exact H1|]. split; [exact H2|].
  exact (proj1 (resolveAll_nested_arrays_flatten 0 _ _ _ _ _ _ _ H1 H2)).
Defined.

(** The state [provide(key).aliasTo(target)] leaves. *)
Lemma provide_aliasTo_state key target this :
  provide_aliasTo key target this
  = {| name := name this;
       _providers :=
         JsObject.set key {| strategy := Some (Alias target); cached := None |}
                      (_providers this) |}.
Proof.
  unfold provide_aliasTo, at_key, provide; simpl.
  rewrite get_set_same; simpl. now rewrite set_set.
Qed.

(** X12.  An alias resolves as its target and shares its memo: after
    [provide(key).with(factory)] and [provide(alias).aliasTo(key)], for
    an alias other than the key, [resolve(alias)] gives what the one call
    of the factory gave, counts as that call, and a [resolve(key)] after
    it gives the same without calling the factory; with
    [provide(key).as(value)] in place of the factory, [resolve(alias)]
    gives [value]. *)
Theorem alias_shares_target depth key alias this :
  alias <> key ->
  (forall value,
      snd (resolve (S depth) alias
             (provide_aliasTo alias key (provide_as key value this)))
      = Returns (Promise_resolve value))
  /\ (forall factory,
         let aliased := provide_aliasTo alias key (provide_with key factory this) in
         snd (resolve (S depth) alias aliased)
         = wrapped (body factory (calls factory))
         /\ factory_calls key (fst (resolve (S depth) alias aliased))
            = Some (S (calls factory))
         /\ resolve depth key (fst (resolve (S depth) alias aliased))
            = (fst (resolve (S depth) alias aliased),
               wrapped (body factory (calls factory)))).
Proof.
  intros Hne.
  assert (Hstep : forall target_provider base,
             JsObject.get key (_providers base) = Some target_provider ->
             resolve (S depth) alias (provide_aliasTo alias key base)
             = resolve depth key (provide_aliasTo alias key base)
             /\ JsObject.get key (_providers (provide_aliasTo alias key base))
                = Some target_provider).
  { intros tp base Hget. rewrite provide_aliasTo_state. split.
    - apply (resolve_delegated depth alias _
               {| strategy := Some (Alias key); cached := None |} key);
        [apply get_set_same|reflexivity].
    - simpl. rewrite get_set_other by congruence. exact Hget. }
  split.
  - intros value.
    destruct (Hstep {| strategy := Some (Literal value); cached := None |}
                (provide_as key value this)) as [Hres Hget].
    { rewrite provide_as_state. apply get_set_same. }
    rewrite Hres.
    now rewrite (resolve_produced depth key _ _
                   {| strategy := Some (Literal value); cached := None |}
                   (Returns value) Hget eq_refl).
  - intros factory aliased. subst aliased.
    destruct (Hstep {| strategy := Some (Factory factory); cached := None |}
                (provide_with key factory this)) as [Hres Hget].
    { rewrite provide_with_state. apply get_set_same. }
    rewrite Hres.
    rewrite (resolve_produced depth key _ _
               {| strategy := Some (Factory (fst (invoke factory)));
                  cached := Some (snd (invoke factory)) |}
               (snd (invoke factory)) Hget eq_refl).
    cbn [fst snd]. split; [reflexivity|]. split.
    + unfold factory_calls. cbn [_providers]. now rewrite get_set_same.
    + erewrite resolve_cached; [reflexivity|].
      cbn [_providers]. apply get_set_same.
Qed.

Lemma alias_shares_target_witness :
  "test-key-alias" <> "test-key"
  /\ snd (resolve 1 "test-key-alias"
            (provide_aliasTo "test-key-alias" "test-key"
               (provide_as "test-key" (Plain (VString "test-value"))
                  (fresh None))))
     = Returns (Fulfilled (VString "test-value")).
Proof.
  split; [discriminate|].
  exact (proj1 (alias_shares_target 0 "test-key" "test-key-alias" (fresh None)
                  ltac:(discriminate))
           (Plain (VString "test-value"))).
Defined.

(** X13.  When [resolve(key)] throws, [resolveAll(key)] throws the same
    and so does the function made by [using(key, consumer)], while
    [resolveAll([key])] and [using([key], consumer)] return a promise
    rejected with what was thrown: inside an array the call of [resolve]
    is made by the promise library, which catches. *)
Theorem throw_escapes_single_key_only depth key this e :
  snd (resolve depth key this) = Throws e ->
  snd (resolveAll depth (CKey key) this) = Throws e
  /\ (forall consumer ownArgs,
        snd (using_ depth (CKey key) consumer ownArgs this) = Throws e)
  /\ snd (resolveAll depth (CArray [CKey key]) this)
     = Returns (Pending (Rejects e))
  /\ (forall consumer ownArgs,
        snd (using_ depth (CArray [CKey key]) consumer ownArgs this)
        = Returns (Pending (Rejects e))).
Proof.
  intros Hthrow.
  assert (Hkey : snd (resolveAll depth (CKey key) this) = Throws e)
    by (rewrite resolveAll_key; simpl; now rewrite Hthrow).
  assert (Harr : snd (resolveAll depth (CArray [CKey key]) this)
                 = Returns (Pending (Rejects e))).
  { rewrite resolveAll_array. cbn [map_each].
    destruct (resolveAll depth (CKey key) this) as [s o]; simpl in Hkey.
    subst o. reflexivity. }
  split; [exact Hkey|]. split; [|split; [exact Harr|]].
  - intros consumer ownArgs. unfold using_.
    destruct (resolveAll depth (CKey key) this) as [s o]; simpl in Hkey.
    now subst o.
  - intros consumer ownArgs. unfold using_.
    destruct (resolveAll depth (CArray [CKey key]) this) as [s o];
      simpl in Harr.
    now subst o.
Qed.

Lemma throw_escapes_single_key_only_witness :
  let boom := {| calls := 0; body := fun _ => Throws (Raised (VString "boom")) |} in
  let this := provide_with "k" boom (fresh None) in
  snd (resolve 0 "k" this) = Throws (Raised (VString "boom"))
  /\ snd (resolveAll 0 (CKey "k") this) = Throws (Raised (VString "boom"))
  /\ snd (resolveAll 0 (CArray [CKey "k"]) this)
     = Returns (Pending (Rejects (Raised (VString "boom")))).
Proof.
  split; [reflexivity|].
  destruct (throw_escapes_single_key_only 0 "k"
              (provide_with "k"
                 {| calls := 0; body := fun _ => Throws (Raised (VString "boom")) |}
                 (fresh None))
              (Raised (VString "boom")) eq_refl) as (Hkey & _ & Harr & _).
  split; [exact Hkey|exact Harr].
Defined.







Section Rerun.
Variables A B : Type.
Variable mapper : A -> Context -> Context * Outcome (Promise B).


End Rerun.









(** X15.  On a context built through the constructor and the methods,
    with no [provide('__proto__')], when neither the registered keys
    nor the new one are array indices, [provide(key)] with a key that is
    not registered and is not ['__proto__'] puts it last among the keys
    that [resolveAll] goes through; a method called on a provider
    afterwards changes neither the keys nor their order. *)
Theorem provide_appends_key key this :
  built this ->
  key <> "__proto__" ->
  JsObject.get key (_providers this) = None ->
  JsObject.array_index key = None ->
  (forall k, JsObject.get k (_providers this) <> None ->
             JsObject.array_index k = None) ->
  JsObject.keys (_providers (fst (provide key this)))
  = (JsObject.keys (_providers this) ++ [key])%list
  /\ forall k method,
      JsObject.keys (_providers (at_key k method (fst (provide key this))))
      = (JsObject.keys (_providers this) ++ [key])%list.
Proof.
  intros _ _ Habsent Hkey Hno.
  assert (Hold : JsObject.keys (_providers this)
                 = List.map fst (_providers this)).
  { apply keys_without_index. intros k Hin. now apply Hno, names_in_get. }
  assert (Hnew : JsObject.keys (_providers (fst (provide key this)))
                 = (JsObject.keys (_providers this) ++ [key])%list).
  { rewrite Hold. simpl. rewrite keys_without_index.
    - now apply set_absent_names.
    - intros k. rewrite (set_absent_names _ _ _ Habsent).
      intros Hin. apply in_app_or in Hin. destruct Hin as [Hin|[<-|[]]].
      + now apply Hno, names_in_get.
      + exact Hkey. }
  split; [exact Hnew|].
  intros k method. rewrite <- Hnew. unfold at_key.
  destruct (JsObject.get k (_providers (fst (provide key this)))) eqn:E;
    [|reflexivity].
  cbn [_providers]. apply set_present_keys. congruence.
Qed.

Lemma provide_appends_key_witness :
  let this := provide_as "log" (Plain (VObject 1)) (fresh None) in
  built this
  /\ "debug" <> "__proto__"
  /\ JsObject.get "debug" (_providers this) = None
  /\ JsObject.array_index "debug" = None
  /\ JsObject.keys (_providers (fst (provide "debug" this))) = ["log"; "debug"].
Proof.
  assert (Hbuilt : built (provide_as "log" (Plain (VObject 1)) (fresh None))).
  { unfold provide_as. apply built_at_key, built_provide; [discriminate|].
    apply built_fresh. }
  assert (Hno : forall k,
             JsObject.get k
               (_providers (provide_as "log" (Plain (VObject 1)) (fresh None)))
             <> None ->
             JsObject.array_index k = None).
  { intros k H. destruct (string_dec k "log") as [->|Hne]; [reflexivity|].
    exfalso. apply H. rewrite provide_as_state.
    cbn [_providers fresh JsObject.empty JsObject.set JsObject.get].
    destruct (String.eqb "log" k) eqn:E; [|reflexivity].
    apply String.eqb_eq in E. congruence. }
  split; [exact Hbuilt|]. split; [discriminate|].
  split; [reflexivity|]. split; [reflexivity|].
  exact (proj1 (provide_appends_key "debug"
                  (provide_as "log" (Plain (VObject 1)) (fresh None))
                  Hbuilt ltac:(discriminate) eq_refl eq_refl Hno)).
Defined.

(** X16.  [provide(key)] with a key other than ['__proto__'] returns a
    new provider without strategy and stores it at [key], whatever was
    there; the entry at every other key and the name are as before; a
    key that was registered gets no second entry, and keys stay unique.
    A second [provide(key)] leaves the context as if the first provider
    had never been configured. *)
Theorem provide_changes_only_its_key key this :
  key <> "__proto__" ->
  snd (provide key this) = Provider.new
  /\ JsObject.get key (_providers (fst (provide key this))) = Some Provider.new
  /\ (forall k, k <> key ->
        JsObject.get k (_providers (fst (provide key this)))
        = JsObject.get k (_providers this))
  /\ name (fst (provide key this)) = name this
  /\ (JsObject.get key (_providers this) <> None ->
      List.map fst (_providers (fst (provide key this)))
      = List.map fst (_providers this))
  /\ (NoDup (List.map fst (_providers this)) ->
      NoDup (List.map fst (_providers (fst (provide key this)))))
  /\ (forall method,
        fst (provide key (at_key key method (fst (provide key this))))
        = fst (provide key this)).
Proof.
  intros _. unfold provide; simpl. repeat split.
  - apply get_set_same.
  - intros k Hk. now apply get_set_other.
  - apply set_present_names.
  - apply set_names_nodup.
  - intros method. unfold at_key; simpl.
    rewrite get_set_same; simpl. now rewrite !set_set.
Qed.

Lemma provide_changes_only_its_key_witness :
  let this := provide_as "a" (Plain (VNumber 1))
                (provide_as "b" (Plain (VNumber 2)) (fresh None)) in
  "a" <> "__proto__"
  /\ JsObject.get "b" (_providers (fst (provide "a" this)))
     = JsObject.get "b" (_providers this)
  /\ JsObject.get "a" (_providers (fst (provide "a" this))) = Some Provider.new.
Proof.
  split; [discriminate|]. split.
  - exact (proj1 (proj2 (proj2
             (provide_changes_only_its_key "a"
                (provide_as "a" (Plain (VNumber 1))
                   (provide_as "b" (Plain (VNumber 2)) (fresh None)))
                ltac:(discriminate))))
             "b" ltac:(discriminate)).
  - reflexivity.
Defined.

End ContextLaws.
